(** * web.py: the filter and regression logic of the housing dashboard

    The script loads one table (one row per town and year) and derives
    four views from it: a top-N bar chart for one year, a scatter plot over
    a year range and a census-unit range, a time series for one town, and
    a degree-1 least-squares fit for one year.

    Numbers of the float columns are modelled as exact rationals; a missing
    cell (pandas' NaN) is [None]. Rounding of binary floating point is not
    part of that model; the module [Doubles] rebuilds the goodness of fit
    of lines 200 to 203 on binary64 numbers, where rounding decides which
    branch of line 203 is taken. *)

From Stdlib Require Import ZArith QArith Qminmax Qabs Lqa Lia String.
From Stdlib Require PrimFloat Uint63.
From stdpp Require Import base decidable option list sorting strings gmap.

Local Open Scope Z_scope.

(** ** Data model *)

(** One observation. [Year] is an integer column; the three numeric columns
    are float columns in which a cell may be missing. *)
Record Row := mkRow {
  Town : string;
  Year : Z;
  Census_Units_2010 : option Q;
  Total_Assisted_Units : option Q;
  Percent_Affordable : option Q
}.

Abbreviation DataFrame := (list Row).

(** The columns the script sorts, filters or fits on. *)
Inductive Column :=
  | col_Year
  | col_2010_Census_Units
  | col_Total_Assisted_Units
  | col_Percent_Affordable.

(** [df[c]] at one row, as a float: an integer year is a present number. *)
Definition cell (c : Column) (r : Row) : option Q :=
  match c with
  | col_Year => Some (inject_Z (Year r))
  | col_2010_Census_Units => Census_Units_2010 r
  | col_Total_Assisted_Units => Total_Assisted_Units r
  | col_Percent_Affordable => Percent_Affordable r
  end.

Global Instance Qle_dec (x y : Q) : Decision (x <= y)%Q.
Proof.
  destruct (Qle_bool x y) eqn:E.
  - left. by apply Qle_bool_iff.
  - right. intros H. apply Qle_bool_iff in H. congruence.
Defined.

Global Instance Qeq_decision (x y : Q) : Decision (x == y)%Q := Qeq_dec x y.

(** Float comparison [a <= b]: false as soon as one side is NaN. *)
Definition float_le (a b : option Q) : Prop :=
  match a, b with
  | Some x, Some y => (x <= y)%Q
  | _, _ => False
  end.

Global Instance float_le_dec a b : Decision (float_le a b).
Proof. destruct a, b; simpl; apply _. Defined.

(** ** Widget lists *)

(** [years = sorted(df["Year"].unique())] *)
Definition years (df : DataFrame) : list Z :=
  merge_sort Z.le (remove_dups (Year <$> df)).

(** ** Section 1 and 4: one year *)

(** [df_year = df[df["Year"] == year_selected].copy()] *)
Definition df_year (df : DataFrame) (year_selected : Z) : DataFrame :=
  filter (λ r, Year r = year_selected) df.

(** The number of rows the table holds for a year
    ([df["Year"].value_counts()] at that year, 0 when absent). *)
Definition year_count (df : DataFrame) (y : Z) : nat :=
  count_occ Z.eq_dec (Year <$> df) y.

(** ** Section 2: year range and census-unit range *)

(** [df_range = df[(df["Year"] >= year_range[0]) & (df["Year"] <= year_range[1])].copy()] *)
Definition df_range (df : DataFrame) (year_range : Z * Z) : DataFrame :=
  filter (λ r, year_range.1 <= Year r ∧ Year r <= year_range.2) df.

(** The present cells of a column, in row order. *)
Definition values (c : Column) (df : DataFrame) : list Q :=
  omap (cell c) df.

(** [Series.min()] and [Series.max()]: missing cells are skipped, and the
    result is NaN when no cell is present. *)
Definition series_min (l : list Q) : option Q :=
  match l with
  | [] => None
  | x :: l' => Some (foldr Qmin x l')
  end.

Definition series_max (l : list Q) : option Q :=
  match l with
  | [] => None
  | x :: l' => Some (foldr Qmax x l')
  end.

(** A number that binary64 holds exactly. Every cell of a float column
    is one, and so is every integer of magnitude below 2^53; [float(...)]
    returns such a number unchanged. *)
Definition is_double (q : Q) : Prop :=
  ∃ m e : Z, Z.abs m < 2 ^ 53 ∧ -1074 ≤ e ≤ 971 ∧ (q == inject_Z m * 2 ^ e)%Q.

(** [min_units = float(df_range["2010 Census Units"].min())] and
    [max_units] likewise, for any column. The minimum and the maximum are
    taken as the numbers they are: [float(...)] is the identity on the
    doubles ([is_double]) and is not modelled beyond them. *)
Definition min_units (c : Column) (view : DataFrame) : option Q :=
  series_min (values c view).

Definition max_units (c : Column) (view : DataFrame) : option Q :=
  series_max (values c view).

(** [df_range[(df_range[c] >= units_low) & (df_range[c] <= units_high)].copy()] *)
Definition units_filter (c : Column) (units_low units_high : option Q)
    (view : DataFrame) : DataFrame :=
  filter (λ r, float_le units_low (cell c r) ∧ float_le (cell c r) units_high) view.

(** The scatter view with the slider left at its default, the full
    observed range [(min_units, max_units)]. *)
Definition df_range_units (c : Column) (view : DataFrame) : DataFrame :=
  units_filter c (min_units c view) (max_units c view) view.

(** ** Sorting

    [DataFrame.sort_values(by, ascending)] is called with its default
    [kind='quicksort'] and [na_position='last']. pandas documents the
    result as the rows rearranged so that the present cells of the column
    are in order and the missing ones come last; only 'mergesort' and
    'stable' are documented to keep rows with equal cells in their original
    order, and how the default kind orders them is decided by numpy's
    sort routines, which are not part of the script. The sort is
    therefore taken as an interface: any function that rearranges the
    rows into that order. *)

(** The order [sort_values] establishes between the cells of two
    successive rows: ascending or descending on present cells, NaN last. *)
Definition na_last (ascending : bool) (a b : option Q) : Prop :=
  match a, b with
  | Some x, Some y => if ascending then (x <= y)%Q else (y <= x)%Q
  | _, None => True
  | None, Some _ => False
  end.

Definition row_order (c : Column) (ascending : bool) (r1 r2 : Row) : Prop :=
  na_last ascending (cell c r1) (cell c r2).

Global Instance na_last_dec asc a b : Decision (na_last asc a b).
Proof. destruct a, b, asc; simpl; apply _. Defined.

Global Instance row_order_dec c asc r1 r2 : Decision (row_order c asc r1 r2).
Proof. unfold row_order. apply _. Defined.

(** [sort_values(by=c, ascending=asc)] with what pandas promises of it. *)
Class SortValues := {
  sort_values : Column → bool → DataFrame → DataFrame;
  sort_values_perm c asc df : sort_values c asc df ≡ₚ df;
  sort_values_sorted c asc df :
    StronglySorted (row_order c asc) (sort_values c asc df)
}.

(** [DataFrame.head(n)] *)
Definition head (n : nat) (df : DataFrame) : DataFrame := take n df.

(** Two rows tie on a column when their cells are equal numbers or both
    missing. *)
Definition tie (c : Column) (r1 r2 : Row) : Prop :=
  match cell c r1, cell c r2 with
  | Some x, Some y => (x == y)%Q
  | None, None => True
  | _, _ => False
  end.

Global Instance tie_dec c r1 r2 : Decision (tie c r1 r2).
Proof. unfold tie. destruct (cell c r1), (cell c r2); apply _. Defined.

(** No two different rows of the view tie on the column. *)
Definition NoTies (c : Column) (view : DataFrame) : Prop :=
  ∀ r1 r2, r1 ∈ view → r2 ∈ view → tie c r1 r2 → r1 = r2.

(** A selection of rows is stable when rows that tie keep the relative
    order they had in the input: the rows of the output tying with any
    given row appear in the same order among those of the input. *)
Definition Stable (c : Column) (input output : DataFrame) : Prop :=
  ∀ r, filter (tie c r) output `sublist_of` filter (tie c r) input.

(** A column read as canonical numbers, so that equal cells are equal
    terms. *)
Definition canon (c : Column) (r : Row) : option Q := Qred <$> cell c r.

Section Views.
Context `{SortValues}.

(** [df_year.sort_values(c, ascending=False).head(top_n)]; the script
    takes [c = "Percent Affordable"]. *)
Definition top_n_by (c : Column) (top_n : nat) (view : DataFrame) : DataFrame :=
  head top_n (sort_values c false view).

(** [df_year_sorted] *)
Definition df_year_sorted (df : DataFrame) (year_selected : Z) (top_n : nat)
    : DataFrame :=
  top_n_by col_Percent_Affordable top_n (df_year df year_selected).

(** [df_town = df[df["Town"] == town_selected].copy()]
    [df_town = df_town.sort_values("Year")] *)
Definition df_town (df : DataFrame) (town_selected : string) : DataFrame :=
  sort_values col_Year true (filter (λ r, Town r = town_selected) df).
End Views.

(** Two functions that meet the sorting interface, used as concrete
    instances of it: an insertion sort, which keeps tied rows in their
    order, and the same insertion sort run on the rows in reverse, which
    does not. Neither is taken to be the order in which pandas leaves
    tied rows. *)
Fixpoint insert_row (c : Column) (asc : bool) (r : Row) (l : DataFrame) : DataFrame :=
  match l with
  | [] => [r]
  | r' :: l' =>
      if decide (row_order c asc r r') then r :: l else r' :: insert_row c asc r l'
  end.

Definition insertion_sort (c : Column) (asc : bool) (df : DataFrame) : DataFrame :=
  foldr (insert_row c asc) [] df.

Definition insertion_sort_reversed (c : Column) (asc : bool) (df : DataFrame)
    : DataFrame :=
  insertion_sort c asc (reverse df).

(** ** Section 4: linear regression *)

Local Open Scope Q_scope.

(** [df_reg = df[df["Year"] == reg_year].copy()]
    [df_reg = df_reg.dropna(subset=["Total Assisted Units", "Percent Affordable"])] *)
Definition dropna (subset : list Column) (df : DataFrame) : DataFrame :=
  filter (λ r, Forall (λ c, is_Some (cell c r)) subset) df.

Definition df_reg (df : DataFrame) (reg_year : Z) : DataFrame :=
  dropna [col_Total_Assisted_Units; col_Percent_Affordable] (df_year df reg_year).

(** [np.sum] and [np.mean] of a vector. *)
Definition np_sum (v : list Q) : Q := foldr Qplus 0 v.

Definition np_mean (v : list Q) : Q := np_sum v / inject_Z (Z.of_nat (length v)).

(** [np.polyfit(x, y, 1)]: the coefficients, highest degree first, of the
    line that minimises the sum of squared residuals. numpy scales the two
    columns of the system, [x] and the ones, to unit length and takes the
    least-squares solution of least norm.
    - When the [x] differ, this is the one solution of the normal
      equations, in closed form.
    - When every [x] is the same number [c], not zero, the two scaled
      columns coincide up to sign and the solution of least norm shares
      the mean of [y] evenly between them: slope [mean y / (2 c)],
      intercept [mean y / 2] (with a rank warning).
    - When every [x] is zero, the scaling divides 0 by 0 and the solver
      raises [LinAlgError]: [None]. *)
Definition polyfit (x y : list Q) : option (Q * Q) :=
  let n := inject_Z (Z.of_nat (length x)) in
  let sx := np_sum x in
  let sy := np_sum y in
  let sxx := np_sum (zip_with Qmult x x) in
  let sxy := np_sum (zip_with Qmult x y) in
  let det := n * sxx - sx * sx in
  if decide (det == 0) then
    let c := np_mean x in
    if decide (c == 0) then None
    else Some (np_mean y / (2 * c), np_mean y / 2)
  else
    let b := (n * sxy - sx * sy) / det in
    let a := (sy - b * sx) / n in
    Some (b, a).

(** [y_pred = a + b * x] *)
Definition y_pred (a b : Q) (x : list Q) : list Q := (λ xi, a + b * xi) <$> x.

(** [ss_res = np.sum((y - y_pred) ** 2)] *)
Definition ss_res (a b : Q) (x y : list Q) : Q :=
  np_sum (zip_with (λ yi pi, (yi - pi) ^ 2) y (y_pred a b x)).

(** [ss_tot = np.sum((y - np.mean(y)) ** 2)] *)
Definition ss_tot (y : list Q) : Q :=
  np_sum ((λ yi, (yi - np_mean y) ^ 2) <$> y).

(** [r2 = 1 - ss_res / ss_tot if ss_tot != 0 else np.nan] *)
Definition r2 (a b : Q) (x y : list Q) : option Q :=
  if decide (¬ ss_tot y == 0) then Some (1 - ss_res a b x y / ss_tot y) else None.

(** The entries of a vector are not all the same number. *)
Definition varies (v : list Q) : Prop := ∃ v1 v2, v1 ∈ v ∧ v2 ∈ v ∧ ¬ v1 == v2.

(** What section 4 shows: the warning, or the fitted coefficients and R²;
    or nothing, when [np.polyfit] raises and the run of the script ends at
    line 165. *)
Inductive Outcome :=
  | InsufficientData (warning : string)
  | Fitted (slope intercept : Q) (r_squared : option Q)
  | LinAlgError.

Definition regression (df : DataFrame) (reg_year : Z) : Outcome :=
  let df_reg := df_reg df reg_year in
  if decide (length df_reg < 2)%nat then
    InsufficientData "Not enough data points for regression in this year."
  else
    let x := values col_Total_Assisted_Units df_reg in
    let y := values col_Percent_Affordable df_reg in
    match polyfit x y with
    | Some (b, a) => Fitted b a (r2 a b x y)
    | None => LinAlgError
    end.

Local Close Scope Q_scope.

(** ** Lines 200 to 203 in binary64

    The goodness of fit as the script computes it: on float64 arrays,
    every operation rounded to the nearest double, ties to even. [np.sum]
    adds a vector of fewer than 8 entries from left to right; longer
    vectors, which numpy adds in several partial sums, are left out
    ([None]). [np.mean] divides the sum by the number of entries, and
    [** 2] multiplies the number with itself. *)
Module Doubles.
Import PrimFloat.
Local Open Scope float_scope.

Definition np_sum (v : list float) : option float :=
  if decide (length v < 8)%nat then Some (foldl add 0 v) else None.

Definition np_mean (v : list float) : option float :=
  s ← np_sum v; Some (s / of_uint63 (Uint63.of_Z (Z.of_nat (length v)))).

(** [y_pred = a + b * x] *)
Definition y_pred (a b : float) (x : list float) : list float :=
  (λ xi, a + b * xi) <$> x.

(** [ss_res = np.sum((y - y_pred) ** 2)] *)
Definition ss_res (a b : float) (x y : list float) : option float :=
  np_sum (zip_with (λ yi pi, (yi - pi) * (yi - pi)) y (y_pred a b x)).

(** [ss_tot = np.sum((y - np.mean(y)) ** 2)] *)
Definition ss_tot (y : list float) : option float :=
  m ← np_mean y; np_sum ((λ yi, (yi - m) * (yi - m)) <$> y).

(** [r2 = 1 - ss_res / ss_tot if ss_tot != 0 else np.nan] *)
Definition r2 (a b : float) (x y : list float) : option float :=
  sr ← ss_res a b x y;
  st ← ss_tot y;
  Some (if negb (st =? 0) then 1 - sr / st else nan).

(** The double nearest to 0.1, which is what the cell 0.1 of the table
    holds. *)
Definition tenth : float := 0x1.999999999999ap-4.

End Doubles.

(** ** Loading: the column labels *)

(** [df.rename(columns=mapping)] on the labels of the header: a label that
    is a key of the mapping is replaced, any other label is kept. *)
Definition rename (columns : gmap string string) (header : list string)
    : list string :=
  (λ label, default label (columns !! label)) <$> header.

(** The mapping of the script: one label, written with a leading space. *)
Definition clean_up : gmap string string :=
  {[ " Single Family CHFA/ USDA Mortgages" := "Single Family CHFA/USDA Mortgages" ]}.

(** ** Widget lists and bounds *)

(** [towns = sorted(df["Town"].unique())]; strings compare character by
    character, by code. *)
Definition towns (df : DataFrame) : list string :=
  merge_sort String.le (remove_dups (Town <$> df)).

(** [min_year, max_year = int(df["Year"].min()), int(df["Year"].max())];
    on a table without rows the minimum is NaN and [int] raises. *)
Definition min_year (df : DataFrame) : option Z :=
  match Year <$> df with
  | [] => None
  | y :: l => Some (foldr Z.min y l)
  end.

Definition max_year (df : DataFrame) : option Z :=
  match Year <$> df with
  | [] => None
  | y :: l => Some (foldr Z.max y l)
  end.

(** Section 2 as a whole: the year range, then the range of
    2010 Census Units; [len(df_range)] is the number of points shown. *)
Definition scatter (df : DataFrame) (year_range : Z * Z)
    (units : option Q * option Q) : DataFrame :=
  units_filter col_2010_Census_Units units.1 units.2 (df_range df year_range).

(** ** Section 4: the regression line *)

(** [np.linspace(start, stop, num)]: [num] evenly spaced samples, the
    first at [start], the step [(stop - start) / (num - 1)]. *)
Definition linspace (start stop : Q) (num : nat) : list Q :=
  let step := ((stop - start) / inject_Z (Z.of_nat (num - 1)))%Q in
  (λ i, (start + inject_Z (Z.of_nat i) * step)%Q) <$> seq 0 num.

(** [x_line = np.linspace(x.min(), x.max(), 100)]; [min] and [max] of an
    array without elements raise. *)
Definition x_line (x : list Q) : option (list Q) :=
  lo ← series_min x; hi ← series_max x; Some (linspace lo hi 100).

(** [y_line = a + b * x_line] *)
Definition y_line (a b : Q) (x_line : list Q) : list Q :=
  (λ xi, (a + b * xi)%Q) <$> x_line.

(** [df_line]: the columns "Total Assisted Units" and
    "Percent Affordable (fitted)", row by row. *)
Definition df_line (a b : Q) (x : list Q) : option (list (Q * Q)) :=
  xl ← x_line x; Some (zip xl (y_line a b xl)).

(** Two outcomes of section 4 show the same: the same warning, or
    coefficients and R² that are equal as numbers. *)
Definition same_outcome (o1 o2 : Outcome) : Prop :=
  match o1, o2 with
  | InsufficientData w1, InsufficientData w2 => w1 = w2
  | Fitted b1 a1 r1, Fitted b2 a2 r2 =>
      (b1 == b2)%Q ∧ (a1 == a2)%Q ∧ option_Forall2 Qeq r1 r2
  | LinAlgError, LinAlgError => True
  | _, _ => False
  end.

(** ** Tables used as concrete inputs *)

(** The perfectly linear set {(1,2),(2,4),(3,6)} and the constant set
    {(1,5),(2,5),(3,5)}, as (Total Assisted Units, Percent Affordable) of
    three towns in 2011. *)
Definition linear_set : DataFrame :=
  [ mkRow "Andover" 2011 (Some 1317%Q) (Some 1%Q) (Some 2%Q);
    mkRow "Ansonia" 2011 (Some 8148%Q) (Some 2%Q) (Some 4%Q);
    mkRow "Ashford" 2011 (Some 1903%Q) (Some 3%Q) (Some 6%Q) ].

Definition constant_set : DataFrame :=
  [ mkRow "Andover" 2011 (Some 1317%Q) (Some 1%Q) (Some 5%Q);
    mkRow "Ansonia" 2011 (Some 8148%Q) (Some 2%Q) (Some 5%Q);
    mkRow "Ashford" 2011 (Some 1903%Q) (Some 3%Q) (Some 5%Q) ].

(** The set {(1,0.1),(2,0.1),(3,0.1)}: the constant set with one tenth
    for 5. *)
Definition tenth_set : DataFrame :=
  [ mkRow "Andover" 2011 (Some 1317%Q) (Some 1%Q) (Some (1 # 10)%Q);
    mkRow "Ansonia" 2011 (Some 8148%Q) (Some 2%Q) (Some (1 # 10)%Q);
    mkRow "Ashford" 2011 (Some 1903%Q) (Some 3%Q) (Some (1 # 10)%Q) ].

(** One usable row in 2012: the second row of that year misses its
    Percent Affordable. *)
Definition single_usable : DataFrame :=
  [ mkRow "Andover" 2012 (Some 1317%Q) (Some 18%Q) (Some (137 # 100)%Q);
    mkRow "Ansonia" 2012 (Some 8148%Q) (Some 1148%Q) None;
    mkRow "Ashford" 2011 (Some 1903%Q) (Some 55%Q) (Some (289 # 100)%Q) ].

(** Eighteen towns with the same Percent Affordable in 2015, in table
    order, and a row of another year. *)
Definition tied_names : list string :=
  [ "Andover"; "Ansonia"; "Ashford"; "Avon"; "Barkhamsted"; "Beacon Falls";
    "Berlin"; "Bethany"; "Bethel"; "Bethlehem"; "Bloomfield"; "Bolton";
    "Bozrah"; "Branford"; "Bridgeport"; "Bridgewater"; "Bristol"; "Brookfield" ].

Definition tied_towns : DataFrame :=
  ((λ t, mkRow t 2015 (Some 1000%Q) (Some 50%Q) (Some 5%Q)) <$> tied_names)
  ++ [ mkRow "Andover" 2016 (Some 1317%Q) (Some 70%Q) (Some (53 # 10)%Q) ].

(** Three towns of 2014 with different Percent Affordable. *)
Definition distinct_towns : DataFrame :=
  [ mkRow "Andover" 2014 (Some 1317%Q) (Some 56%Q) (Some (425 # 100)%Q);
    mkRow "Ansonia" 2014 (Some 8148%Q) (Some 1122%Q) (Some (1377 # 100)%Q);
    mkRow "Ashford" 2014 (Some 1903%Q) (Some 53%Q) (Some (279 # 100)%Q) ].

(** The rows of one town out of time order, among rows of another. *)
Definition shuffled_years : DataFrame :=
  [ mkRow "Andover" 2013 (Some 1317%Q) (Some 60%Q) (Some (456 # 100)%Q);
    mkRow "Ansonia" 2012 (Some 8148%Q) (Some 1148%Q) (Some (1409 # 100)%Q);
    mkRow "Andover" 2011 (Some 1317%Q) (Some 18%Q) (Some (137 # 100)%Q);
    mkRow "Andover" 2012 (Some 1317%Q) (Some 20%Q) (Some (152 # 100)%Q) ].

(** A view whose census cell is missing. *)
Definition census_missing : DataFrame :=
  [ mkRow "Andover" 2011 None (Some 18%Q) (Some (137 # 100)%Q) ].

(** ** Filters: basic facts *)

Lemma elem_of_years (df : DataFrame) (y : Z) :
  y ∈ years df ↔ ∃ r, r ∈ df ∧ Year r = y.
Proof.
  unfold years. rewrite merge_sort_Permutation, elem_of_remove_dups, list_elem_of_fmap.
  split; intros (r & H1 & H2); exists r; by split.
Qed.

Lemma length_df_year (df : DataFrame) (y : Z) :
  length (df_year df y) = year_count df y.
Proof.
  unfold df_year, year_count.
  induction df as [|r df IH]; [done|].
  rewrite filter_cons, fmap_cons. cbn [count_occ].
  destruct (decide (Year r = y)), (Z.eq_dec (Year r) y); simpl; congruence.
Qed.

Lemma elem_of_values (c : Column) (view : DataFrame) (v : Q) :
  v ∈ values c view ↔ ∃ r, r ∈ view ∧ cell c r = Some v.
Proof. unfold values. apply list_elem_of_omap. Qed.

Lemma foldr_Qmin_le (x0 : Q) (l : list Q) :
  (foldr Qmin x0 l <= x0)%Q ∧ ∀ x, x ∈ l → (foldr Qmin x0 l <= x)%Q.
Proof.
  induction l as [|y l [IH0 IH]]; simpl.
  - split; [apply Qle_refl|]. intros x Hx. by apply not_elem_of_nil in Hx.
  - split.
    + eapply Qle_trans; [apply Q.le_min_r | exact IH0].
    + intros x Hx. apply elem_of_cons in Hx as [->|Hx].
      * apply Q.le_min_l.
      * eapply Qle_trans; [apply Q.le_min_r | by apply IH].
Qed.

Lemma foldr_Qmax_ge (x0 : Q) (l : list Q) :
  (x0 <= foldr Qmax x0 l)%Q ∧ ∀ x, x ∈ l → (x <= foldr Qmax x0 l)%Q.
Proof.
  induction l as [|y l [IH0 IH]]; simpl.
  - split; [apply Qle_refl|]. intros x Hx. by apply not_elem_of_nil in Hx.
  - split.
    + eapply Qle_trans; [exact IH0 | apply Q.le_max_r].
    + intros x Hx. apply elem_of_cons in Hx as [->|Hx].
      * apply Q.le_max_l.
      * eapply Qle_trans; [by apply IH | apply Q.le_max_r].
Qed.

Lemma series_min_spec (l : list Q) (x : Q) :
  x ∈ l → ∃ m, series_min l = Some m ∧ (m <= x)%Q.
Proof.
  destruct l as [|x0 l]; intros Hx; [by apply not_elem_of_nil in Hx|].
  exists (foldr Qmin x0 l). split; [done|].
  destruct (foldr_Qmin_le x0 l) as [H0 Hl].
  apply elem_of_cons in Hx as [->|Hx]; auto.
Qed.

Lemma series_max_spec (l : list Q) (x : Q) :
  x ∈ l → ∃ m, series_max l = Some m ∧ (x <= m)%Q.
Proof.
  destruct l as [|x0 l]; intros Hx; [by apply not_elem_of_nil in Hx|].
  exists (foldr Qmax x0 l). split; [done|].
  destruct (foldr_Qmax_ge x0 l) as [H0 Hl].
  apply elem_of_cons in Hx as [->|Hx]; auto.
Qed.

(** A row with a present cell passes the filter set to the observed
    range. *)
Lemma present_in_observed_range (c : Column) (view : DataFrame) (r : Row) :
  r ∈ view → is_Some (cell c r) →
  float_le (min_units c view) (cell c r) ∧ float_le (cell c r) (max_units c view).
Proof.
  intros Hr [v Hv]. rewrite Hv.
  assert (v ∈ values c view) as Hin by (apply elem_of_values; eauto).
  destruct (series_min_spec _ _ Hin) as (lo & Hlo & Hle).
  destruct (series_max_spec _ _ Hin) as (hi & Hhi & Hge).
  unfold min_units, max_units. rewrite Hlo, Hhi. by split.
Qed.

Lemma elem_of_df_range_units (c : Column) (view : DataFrame) (r : Row) :
  r ∈ df_range_units c view ↔ r ∈ view ∧ is_Some (cell c r).
Proof.
  unfold df_range_units, units_filter. rewrite list_elem_of_filter.
  split.
  - intros [[H1 H2] Hr]. split; [done|].
    destruct (cell c r); [eauto|]. by destruct (min_units c view).
  - intros [Hr Hs]. split; [|done]. by apply present_in_observed_range.
Qed.

Global Instance na_last_total asc : Total (na_last asc).
Proof.
  intros [x|] [y|]; simpl; auto.
  destruct asc; destruct (Qlt_le_dec x y) as [Hlt|Hle]; auto using Qlt_le_weak.
Qed.

Global Instance na_last_trans asc : Transitive (na_last asc).
Proof.
  intros [x|] [y|] [z|]; simpl; try done.
  destruct asc; intros ??; eapply Qle_trans; eauto.
Qed.

Global Instance row_order_total c asc : Total (row_order c asc).
Proof. intros r1 r2. apply (total (na_last asc)). Qed.

Global Instance row_order_trans c asc : Transitive (row_order c asc).
Proof. intros r1 r2 r3. apply (transitivity (R:=na_last asc)). Qed.

Lemma insert_row_perm (c : Column) (asc : bool) (r : Row) (l : DataFrame) :
  insert_row c asc r l ≡ₚ r :: l.
Proof.
  induction l as [|r' l IH]; simpl; [done|].
  case_decide; [done|]. by rewrite IH, Permutation_swap.
Qed.

Lemma insert_row_sorted (c : Column) (asc : bool) (r : Row) (l : DataFrame) :
  StronglySorted (row_order c asc) l →
  StronglySorted (row_order c asc) (insert_row c asc r l).
Proof.
  induction 1 as [|r' l Hl IH Hr']; simpl.
  - repeat constructor.
  - case_decide as Hrr'.
    + constructor; [by constructor|]. constructor; [done|].
      eapply Forall_impl; [exact Hr'|]. intros r'' ?. by etrans.
    + constructor; [done|]. rewrite insert_row_perm. constructor; [|done].
      by destruct (total (row_order c asc) r r').
Qed.

Lemma insertion_sort_perm (c : Column) (asc : bool) (df : DataFrame) :
  insertion_sort c asc df ≡ₚ df.
Proof.
  induction df as [|r df IH]; simpl; [done|]. by rewrite insert_row_perm, IH.
Qed.

Lemma insertion_sort_sorted (c : Column) (asc : bool) (df : DataFrame) :
  StronglySorted (row_order c asc) (insertion_sort c asc df).
Proof.
  induction df as [|r df IH]; simpl; [constructor|]. by apply insert_row_sorted.
Qed.

Definition by_insertion : SortValues :=
  {| sort_values := insertion_sort;
     sort_values_perm := insertion_sort_perm;
     sort_values_sorted := insertion_sort_sorted |}.

Lemma insertion_sort_reversed_perm (c : Column) (asc : bool) (df : DataFrame) :
  insertion_sort_reversed c asc df ≡ₚ df.
Proof.
  unfold insertion_sort_reversed. by rewrite insertion_sort_perm, reverse_Permutation.
Qed.

Definition by_insertion_reversed : SortValues :=
  {| sort_values := insertion_sort_reversed;
     sort_values_perm := insertion_sort_reversed_perm;
     sort_values_sorted c asc df := insertion_sort_sorted c asc (reverse df) |}.

Lemma mutual_order_tie (c : Column) (asc : bool) (r1 r2 : Row) :
  row_order c asc r1 r2 → row_order c asc r2 r1 → tie c r1 r2.
Proof.
  unfold row_order, tie. destruct (cell c r1), (cell c r2); simpl; try done.
  destruct asc; intros ??; by apply Qle_antisym.
Qed.

Lemma Qred_Qred (q : Q) : Qred (Qred q) = Qred q.
Proof. apply Qred_complete, Qred_correct. Qed.

Lemma tie_canon (c : Column) (r1 r2 : Row) : tie c r1 r2 ↔ canon c r1 = canon c r2.
Proof.
  unfold tie, canon. destruct (cell c r1), (cell c r2); simpl; split; try done.
  - intros E. f_equal. by apply Qred_complete.
  - intros [= E]. by apply Qred_eq_iff.
Qed.

(** Two sorted rearrangements of the same rows show the same sequence of
    cells. *)
Lemma sorted_cells_unique (c : Column) (asc : bool) (l1 l2 : DataFrame) :
  StronglySorted (row_order c asc) l1 → StronglySorted (row_order c asc) l2 →
  l1 ≡ₚ l2 → canon c <$> l1 = canon c <$> l2.
Proof.
  intros H1 H2 E.
  apply (StronglySorted_unique_strong (λ a b, ∃ r1 r2, a = canon c r1 ∧ b = canon c r2 ∧ row_order c asc r1 r2)).
  - intros a b Ha Hb (r1 & r2 & -> & -> & H12) (r2' & r1' & E2 & E1 & H21).
    apply tie_canon. apply (mutual_order_tie c asc); [done|].
    unfold row_order in *. apply tie_canon in E1, E2. unfold tie in *.
    destruct (cell c r1), (cell c r2), (cell c r1'), (cell c r2'); simpl in *; try done.
    destruct asc; by rewrite E1, E2.
  - eapply StronglySorted_fmap; [|exact H1]. intros r1 r2 Hr; eauto.
  - eapply StronglySorted_fmap; [|exact H2]. intros r1 r2 Hr; eauto.
  - by rewrite E.
Qed.

(** Without ties the sorted rearrangement is unique. *)
Lemma sorted_rows_unique (c : Column) (asc : bool) (l1 l2 : DataFrame) :
  NoTies c l2 →
  StronglySorted (row_order c asc) l1 → StronglySorted (row_order c asc) l2 →
  l1 ≡ₚ l2 → l1 = l2.
Proof.
  intros Hno H1 H2 E. apply (StronglySorted_unique_strong (row_order c asc)); [|done..].
  intros r1 r2 Hr1 Hr2 H12 H21. apply Hno; [by rewrite <-E|done|].
  by apply (mutual_order_tie c asc).
Qed.

Lemma sublist_same_length {A} (l1 l2 : list A) :
  l1 `sublist_of` l2 → (length l2 ≤ length l1)%nat → l1 = l2.
Proof.
  induction 1 as [|x l1 l2 _ IH|x l1 l2 Hsub _]; simpl; intros Hlen; [done| |].
  - f_equal. apply IH. lia.
  - apply sublist_length in Hsub. lia.
Qed.

Lemma filter_iff_elem_of {A} (P1 P2 : A → Prop)
    `{!∀ x, Decision (P1 x), !∀ x, Decision (P2 x)} (l : list A) :
  (∀ x, x ∈ l → P1 x ↔ P2 x) → filter P1 l = filter P2 l.
Proof.
  induction l as [|a l IH]; intros Hl; [done|].
  rewrite !filter_cons, IH by (intros; apply Hl; by right).
  destruct (decide (P1 a)) as [H1|H1], (decide (P2 a)) as [H2|H2]; try done;
    exfalso; apply (Hl a) in H1 || apply (Hl a) in H2; done || by left.
Qed.

Lemma df_range_units_present (c : Column) (view : DataFrame) :
  df_range_units c view = filter (λ r, is_Some (cell c r)) view.
Proof.
  unfold df_range_units, units_filter. apply filter_iff_elem_of.
  intros r Hr. split.
  - intros [H1 H2]. destruct (cell c r); [eauto|]. by destruct (min_units c view).
  - intros Hs. by apply present_in_observed_range.
Qed.

Section ViewFacts.
Context `{SortValues}.

Lemma top_n_by_length (c : Column) (n : nat) (view : DataFrame) :
  length (top_n_by c n view) = Nat.min n (length view).
Proof.
  unfold top_n_by, head. by rewrite length_take, (sort_values_perm c false view).
Qed.

Lemma top_n_by_sorted (c : Column) (n : nat) (view : DataFrame) :
  StronglySorted (row_order c false) (top_n_by c n view).
Proof.
  unfold top_n_by, head.
  apply (StronglySorted_app_1_l _ _ (drop n (sort_values c false view))).
  rewrite take_drop. apply sort_values_sorted.
Qed.

(** Every kept row is ranked at least as high as every dropped row. *)
Lemma top_n_by_dominates (c : Column) (n : nat) (view : DataFrame) (r1 r2 : Row) :
  r1 ∈ top_n_by c n view → r2 ∈ drop n (sort_values c false view) →
  row_order c false r1 r2.
Proof.
  unfold top_n_by, head. intros H1 H2.
  eapply (StronglySorted_app_1_elem_of _ (take n _) (drop n _)); [|done..].
  rewrite take_drop. apply sort_values_sorted.
Qed.

Lemma top_n_by_submseteq (c : Column) (n : nat) (view : DataFrame) :
  top_n_by c n view ⊆+ view.
Proof.
  unfold top_n_by, head. rewrite <-(sort_values_perm c false view) at 2.
  apply sublist_submseteq, sublist_take.
Qed.

Lemma top_n_by_all (c : Column) (n : nat) (view : DataFrame) :
  (length view ≤ n)%nat → top_n_by c n view = sort_values c false view.
Proof.
  intros Hn. unfold top_n_by, head. apply take_ge.
  by rewrite (sort_values_perm c false view).
Qed.

(** The top-N of a top-N is the sort of the first result. *)
Lemma top_n_by_twice (c : Column) (n : nat) (view : DataFrame) :
  top_n_by c n (top_n_by c n view) = sort_values c false (top_n_by c n view).
Proof. apply top_n_by_all. rewrite top_n_by_length. lia. Qed.
End ViewFacts.

(** ** The insertion sort is stable *)

Lemma tie_row_order (c : Column) (asc : bool) (r1 r2 : Row) :
  tie c r1 r2 → row_order c asc r1 r2.
Proof.
  unfold tie, row_order. destruct (cell c r1), (cell c r2); simpl; try done.
  intros E. destruct asc; rewrite E; apply Qle_refl.
Qed.

Lemma tie_common (c : Column) (r0 r1 r2 : Row) :
  tie c r0 r1 → tie c r0 r2 → tie c r1 r2.
Proof.
  unfold tie. destruct (cell c r0), (cell c r1), (cell c r2); try done.
  intros E1 E2. by rewrite <-E1, <-E2.
Qed.

Lemma filter_tie_insert_row (c : Column) (asc : bool) (r0 r : Row) (l : DataFrame) :
  filter (tie c r0) (insert_row c asc r l) = filter (tie c r0) (r :: l).
Proof.
  induction l as [|r' l IH]; [done|]. simpl insert_row.
  case_decide as Hrr'; [done|].
  rewrite (filter_cons _ r'), IH, !filter_cons.
  destruct (decide (tie c r0 r')) as [H'|H'], (decide (tie c r0 r)) as [H0|H0]; try done.
  exfalso. apply Hrr', tie_row_order. by apply (tie_common c r0).
Qed.

Lemma insertion_sort_stable (c : Column) (asc : bool) (r0 : Row) (df : DataFrame) :
  filter (tie c r0) (insertion_sort c asc df) = filter (tie c r0) df.
Proof.
  induction df as [|r df IH]; [done|]. simpl insertion_sort.
  by rewrite filter_tie_insert_row, !filter_cons, IH.
Qed.

(** Under the insertion sort the top-N view is stable. *)
Lemma top_n_by_insertion_stable (c : Column) (n : nat) (view : DataFrame) :
  Stable c view (@top_n_by by_insertion c n view).
Proof.
  intros r0. unfold top_n_by, head. simpl sort_values.
  rewrite <-(insertion_sort_stable c false r0 view).
  rewrite <-(take_drop n (insertion_sort c false view)) at 2.
  rewrite filter_app. by apply sublist_inserts_r.
Qed.

(** ** Regression: sums of squares *)

Local Open Scope Q_scope.

Lemma np_sum_nonneg (v : list Q) : Forall (λ q, 0 <= q) v → 0 <= np_sum v.
Proof.
  induction 1 as [|q v Hq _ IH]; simpl; [apply Qle_refl|].
  change 0 with (0 + 0). by apply Qplus_le_compat.
Qed.

Lemma np_sum_zero (v : list Q) :
  Forall (λ q, 0 <= q) v → np_sum v == 0 → Forall (λ q, q == 0) v.
Proof.
  induction 1 as [|q v Hq Hv IH]; simpl; intros Hs; [constructor|].
  pose proof (np_sum_nonneg v Hv) as Hn.
  constructor; [lra|]. apply IH. lra.
Qed.

Lemma np_sum_all_zero (v : list Q) : Forall (λ q, q == 0) v → np_sum v == 0.
Proof. induction 1 as [|q v Hq _ IH]; simpl; [reflexivity|]. rewrite Hq, IH. reflexivity. Qed.

Lemma sqr_nonneg (q : Q) : 0 <= q ^ 2.
Proof. simpl. nra. Qed.

Lemma sqr_zero (q : Q) : q ^ 2 == 0 ↔ q == 0.
Proof. simpl. split; intros Hq; nra. Qed.

Lemma ss_res_nonneg (a b : Q) (x y : list Q) : 0 <= ss_res a b x y.
Proof.
  unfold ss_res. apply np_sum_nonneg.
  generalize (y_pred a b x). intros p. revert p.
  induction y as [|yi y IH]; intros [|pi p]; simpl; try constructor.
  - apply sqr_nonneg.
  - apply IH.
Qed.

Lemma ss_tot_nonneg (y : list Q) : 0 <= ss_tot y.
Proof.
  unfold ss_tot. apply np_sum_nonneg, Forall_fmap, Forall_forall.
  intros yi _. apply sqr_nonneg.
Qed.

(** [ss_tot] vanishes exactly when every [y] equals the mean. *)
Lemma ss_tot_zero_iff (y : list Q) :
  ss_tot y == 0 ↔ Forall (λ yi, yi == np_mean y) y.
Proof.
  unfold ss_tot. generalize (np_mean y). intros m. split.
  - intros Hs. apply np_sum_zero in Hs.
    + apply Forall_fmap in Hs. eapply Forall_impl; [exact Hs|].
      intros yi Hyi. unfold compose in Hyi. apply ->sqr_zero in Hyi. lra.
    + apply Forall_fmap, Forall_forall. intros yi _. apply sqr_nonneg.
  - intros Hy. apply np_sum_all_zero, Forall_fmap.
    eapply Forall_impl; [exact Hy|]. intros yi Hyi. unfold compose. cbv beta in *. apply <-sqr_zero. lra.
Qed.

Lemma np_sum_constant (c : Q) (y : list Q) :
  Forall (λ yi, yi == c) y → np_sum y == inject_Z (Z.of_nat (length y)) * c.
Proof.
  induction 1 as [|yi y Hyi _ IH].
  - simpl. ring.
  - cbn [np_sum foldr length]. fold (np_sum y). rewrite IH, Hyi, Nat2Z.inj_succ.
    unfold Z.succ. rewrite inject_Z_plus. ring.
Qed.

Lemma length_pos_Q (y : list Q) : y ≠ [] → 0 < inject_Z (Z.of_nat (length y)).
Proof.
  intros Hy. destruct y as [|yi y]; [done|].
  change 0 with (inject_Z 0). rewrite <-Zlt_Qlt. simpl. lia.
Qed.

Lemma np_mean_constant (c : Q) (y : list Q) :
  y ≠ [] → Forall (λ yi, yi == c) y → np_mean y == c.
Proof.
  intros Hne Hy. unfold np_mean. rewrite (np_sum_constant c y Hy).
  pose proof (length_pos_Q y Hne). field. lra.
Qed.

(** Constant [y]: the total sum of squares is zero. *)
Lemma ss_tot_constant (c : Q) (y : list Q) :
  Forall (λ yi, yi == c) y → ss_tot y == 0.
Proof.
  intros Hy. destruct y as [|y0 y]; [reflexivity|].
  apply ss_tot_zero_iff. pose proof (np_mean_constant c (y0 :: y)) as Hm.
  eapply Forall_impl; [exact Hy|]. intros yi Hyi. cbv beta in Hyi.
  rewrite Hyi, Hm; [reflexivity|done|done].
Qed.

Lemma r2_nan_iff (a b : Q) (x y : list Q) : r2 a b x y = None ↔ ss_tot y == 0.
Proof.
  unfold r2. destruct (decide (¬ ss_tot y == 0)) as [Hn|Hn]; split; try done.
  intros _. by destruct (Qeq_dec (ss_tot y) 0).
Qed.

Lemma r2_le_1 (a b : Q) (x y : list Q) :
  ¬ ss_tot y == 0 → ∃ r, r2 a b x y = Some r ∧ r <= 1.
Proof.
  intros Hn. unfold r2. rewrite decide_True by done. eexists; split; [done|].
  pose proof (ss_tot_nonneg y) as Ht. pose proof (ss_res_nonneg a b x y) as Hr.
  assert (0 <= ss_res a b x y / ss_tot y) as Hd.
  { apply Qle_shift_div_l; lra. }
  lra.
Qed.

(** ** Regression: the fitted line *)

Lemma n_succ (A : Type) (x0 : A) (x : list A) :
  inject_Z (Z.of_nat (length (x0 :: x))) == inject_Z (Z.of_nat (length x)) + 1.
Proof. cbn [length]. rewrite Nat2Z.inj_succ. unfold Z.succ. by rewrite inject_Z_plus. Qed.

(** The residual sum of squares of any line, developed around a line
    [(a, b)]: the residual of [(a, b)], two cross terms, and a sum of
    squares. *)
Lemma ss_res_around (a b a' b' : Q) (x y : list Q) :
  length x = length y →
  let n := inject_Z (Z.of_nat (length x)) in
  let sx := np_sum x in
  let sy := np_sum y in
  let sxx := np_sum (zip_with Qmult x x) in
  let sxy := np_sum (zip_with Qmult x y) in
  ss_res a' b' x y ==
    ss_res a b x y
    - 2 * (a' - a) * (sy - n * a - b * sx)
    - 2 * (b' - b) * (sxy - a * sx - b * sxx)
    + np_sum ((λ xi, ((a' - a) + (b' - b) * xi) ^ 2) <$> x).
Proof.
  revert y. induction x as [|x0 x IH]; intros [|y0 y] Hlen; try done.
  - cbn. ring.
  - injection Hlen as Hlen. specialize (IH y Hlen). cbv zeta in *.
    rewrite n_succ. unfold ss_res in *.
    cbn [y_pred fmap list_fmap zip_with np_sum foldr] in *.
    fold (np_sum x) (np_sum y) in *.
    fold (np_sum (zip_with Qmult x x)) (np_sum (zip_with Qmult x y)) in *.
    change ((λ xi, a + b * xi) <$> x) with (y_pred a b x).
    repeat match goal with
           | |- context [foldr Qplus 0 ?l] => change (foldr Qplus 0 l) with (np_sum l)
           end.
    rewrite IH. simpl Qpower. ring.
Qed.

(** The determinant of the normal equations is [n] times the spread of
    [x], so the closed form is undefined exactly when all [x] coincide. *)
Lemma sum_sq_dev (m : Q) (x : list Q) :
  np_sum ((λ xi, (xi - m) ^ 2) <$> x) ==
  np_sum (zip_with Qmult x x) - 2 * m * np_sum x
  + inject_Z (Z.of_nat (length x)) * m * m.
Proof.
  induction x as [|x0 x IH].
  - cbn. ring.
  - rewrite n_succ. cbn [fmap list_fmap zip_with np_sum foldr].
    repeat match goal with
           | |- context [foldr Qplus 0 ?l] => change (foldr Qplus 0 l) with (np_sum l)
           end.
    change (list_fmap Q Q (λ xi, (xi - m) ^ 2) x) with ((λ xi, (xi - m) ^ 2) <$> x).
    rewrite IH. simpl Qpower. ring.
Qed.

Lemma det_ss_tot (x : list Q) :
  inject_Z (Z.of_nat (length x)) * np_sum (zip_with Qmult x x) - np_sum x * np_sum x
  == inject_Z (Z.of_nat (length x)) * ss_tot x.
Proof.
  destruct x as [|x0 x]; [cbn; ring|].
  pose proof (length_pos_Q (x0 :: x)) as Hn. unfold ss_tot.
  rewrite sum_sq_dev. unfold np_mean. field. intros Hz. rewrite Hz in Hn.
  by apply (Qlt_irrefl 0), Hn.
Qed.

Lemma varies_ss_tot (v : list Q) : varies v ↔ ¬ ss_tot v == 0.
Proof.
  rewrite ss_tot_zero_iff. split.
  - intros (v1 & v2 & H1 & H2 & Hne) Hall. rewrite Forall_forall in Hall.
    apply Hne. by rewrite (Hall v1 H1), (Hall v2 H2).
  - intros Hnot. apply not_Forall_Exists in Hnot; [|intros ?; apply _].
    apply Exists_exists in Hnot as (v1 & H1 & Hne).
    destruct (decide (Forall (λ v2, v2 == v1) v)) as [Hall|Hnall].
    + exfalso. apply Hne. symmetry.
      apply np_mean_constant; [|done]. intros ->. by apply not_elem_of_nil in H1.
    + apply not_Forall_Exists in Hnall; [|intros ?; apply _].
      apply Exists_exists in Hnall as (v2 & H2 & Hne2).
      exists v2, v1. done.
Qed.

Lemma det_zero_all_mean (x : list Q) :
  inject_Z (Z.of_nat (length x)) * np_sum (zip_with Qmult x x) - np_sum x * np_sum x == 0
  → Forall (λ xi, xi == np_mean x) x.
Proof.
  rewrite det_ss_tot. intros Hdet. destruct x as [|x0 x]; [constructor|].
  pose proof (length_pos_Q (x0 :: x)) as Hn.
  apply Qmult_integral in Hdet as [Hz|Hz]; [|by apply ss_tot_zero_iff].
  exfalso. rewrite Hz in Hn. by apply (Qlt_irrefl 0) in Hn.
Qed.

Lemma zip_with_constant_l (c : Q) (x y : list Q) :
  length x = length y → Forall (λ xi, xi == c) x →
  np_sum (zip_with Qmult x y) == c * np_sum y.
Proof.
  revert y. induction x as [|x0 x IH]; intros [|y0 y] Hlen Hx; try done.
  - cbn. ring.
  - injection Hlen as Hlen. apply Forall_cons in Hx as [Hx0 Hx].
    cbn [zip_with np_sum foldr].
    change (foldr Qplus 0 (zip_with Qmult x y)) with (np_sum (zip_with Qmult x y)).
    change (foldr Qplus 0 y) with (np_sum y).
    rewrite (IH y Hlen Hx), Hx0. ring.
Qed.

(** Whatever [polyfit] answers solves the normal equations. *)
Lemma polyfit_normal (x y : list Q) (a b : Q) :
  length x = length y → polyfit x y = Some (b, a) →
  inject_Z (Z.of_nat (length x)) * a + b * np_sum x == np_sum y ∧
  a * np_sum x + b * np_sum (zip_with Qmult x x) == np_sum (zip_with Qmult x y).
Proof.
  intros Hlen Hfit. unfold polyfit in Hfit. cbv zeta in Hfit.
  destruct (decide _) as [Hdet|Hdet].
  - destruct (decide (np_mean x == 0)) as [|Hc]; [done|]. injection Hfit as Hb Ha.
    pose proof (det_zero_all_mean x Hdet) as Hall.
    assert (x ≠ []) as Hne by (intros ->; apply Hc; reflexivity).
    pose proof (length_pos_Q x Hne) as Hn.
    pose proof (zip_with_constant_l (np_mean x) x x eq_refl Hall) as Hsxx.
    pose proof (zip_with_constant_l (np_mean x) x y Hlen Hall) as Hsxy.
    pose proof (np_sum_constant (np_mean x) x Hall) as Hsx.
    assert (np_mean y == np_sum y / inject_Z (Z.of_nat (length x))) as Hmy
      by (unfold np_mean; by rewrite Hlen).
    subst a b. rewrite Hsxx, Hsxy, Hmy.
    set (n := inject_Z (Z.of_nat (length x))) in *.
    set (c := np_mean x) in *. set (sy := np_sum y) in *.
    set (sx := np_sum x) in *. rewrite Hsx.
    split; field; split; lra.
  - injection Hfit as Hb Ha.
    set (n := inject_Z (Z.of_nat (length x))) in *.
    set (sx := np_sum x) in *. set (sy := np_sum y) in *.
    set (sxx := np_sum (zip_with Qmult x x)) in *.
    set (sxy := np_sum (zip_with Qmult x y)) in *.
    assert (¬ n == 0) as Hn.
    { intros Hn. apply Hdet.
      assert (x = []) as ->.
      { destruct x; [done|]. subst n. exfalso.
        pose proof (length_pos_Q (q :: x)) as Hp. rewrite Hn in Hp.
        by apply (Qlt_irrefl 0), Hp. }
      subst n sx sxx. cbn. ring. }
    subst a b. split; field; by split.
Qed.

(** So its line minimises the residual sum of squares over all lines. *)
Lemma polyfit_least_squares (x y : list Q) (a b : Q) :
  length x = length y → polyfit x y = Some (b, a) →
  ∀ a' b', ss_res a b x y <= ss_res a' b' x y.
Proof.
  intros Hlen Hfit a' b'. rewrite (ss_res_around a b a' b' x y Hlen). cbv zeta.
  destruct (polyfit_normal x y a b Hlen Hfit) as [H1 H2].
  assert (np_sum y - inject_Z (Z.of_nat (length x)) * a - b * np_sum x == 0) as ->
    by (rewrite <-H1; ring).
  assert (np_sum (zip_with Qmult x y) - a * np_sum x
          - b * np_sum (zip_with Qmult x x) == 0) as ->
    by (rewrite <-H2; ring).
  match goal with |- _ <= _ - _ - _ + ?s => assert (0 <= s) as Hs end.
  { apply np_sum_nonneg, Forall_fmap, Forall_forall. intros xi _. apply sqr_nonneg. }
  lra.
Qed.

(** [polyfit] raises only when every [x] is zero; it answers as soon as
    two [x] differ. *)
Lemma polyfit_None_iff (x y : list Q) :
  polyfit x y = None ↔ Forall (λ xi, xi == 0) x.
Proof.
  unfold polyfit. cbv zeta. split.
  - case_decide as Hdet; [|done]. case_decide as Hc; [|done]. intros _.
    eapply Forall_impl; [exact (det_zero_all_mean x Hdet)|].
    intros xi Hxi. cbv beta in Hxi. by rewrite Hxi.
  - intros Hall.
    assert (np_mean x == 0) as Hc.
    { destruct x as [|x0 x]; [reflexivity|]. by apply np_mean_constant. }
    assert (ss_tot x == 0) as Hs.
    { apply ss_tot_zero_iff. eapply Forall_impl; [exact Hall|].
      intros xi Hxi. cbv beta in Hxi. by rewrite Hxi, Hc. }
    rewrite decide_True; [by rewrite decide_True|].
    rewrite det_ss_tot, Hs. ring.
Qed.

Lemma polyfit_varies (x y : list Q) : varies x → polyfit x y ≠ None.
Proof.
  intros (v1 & v2 & H1 & H2 & Hne) Hnone. apply polyfit_None_iff in Hnone.
  rewrite Forall_forall in Hnone. apply Hne.
  by rewrite (Hnone v1 H1), (Hnone v2 H2).
Qed.

(** ** Regression: the usable rows *)

Lemma elem_of_df_reg (df : DataFrame) (reg_year : Z) (r : Row) :
  r ∈ df_reg df reg_year ↔
  r ∈ df ∧ Year r = reg_year ∧
  is_Some (Total_Assisted_Units r) ∧ is_Some (Percent_Affordable r).
Proof.
  unfold df_reg, dropna, df_year. rewrite !list_elem_of_filter, !Forall_cons, Forall_nil.
  simpl. tauto.
Qed.

Lemma df_reg_filter (df : DataFrame) (reg_year : Z) :
  df_reg df reg_year =
  filter (λ r, (is_Some (Total_Assisted_Units r) ∧ is_Some (Percent_Affordable r))
               ∧ Year r = reg_year) df.
Proof.
  unfold df_reg, dropna, df_year. rewrite list_filter_filter.
  apply list_filter_iff. intros r. rewrite !Forall_cons, Forall_nil. simpl. tauto.
Qed.

Lemma length_values_present (c : Column) (view : DataFrame) :
  Forall (λ r, is_Some (cell c r)) view → length (values c view) = length view.
Proof.
  unfold values. induction 1 as [|r view [v Hv] _ IH]; [done|].
  cbn. rewrite Hv. cbn. by rewrite <- IH.
Qed.

Lemma length_x_df_reg (df : DataFrame) (reg_year : Z) :
  length (values col_Total_Assisted_Units (df_reg df reg_year))
  = length (df_reg df reg_year).
Proof.
  apply length_values_present, Forall_forall. intros r Hr.
  apply elem_of_df_reg in Hr. simpl. tauto.
Qed.

Lemma length_y_df_reg (df : DataFrame) (reg_year : Z) :
  length (values col_Percent_Affordable (df_reg df reg_year))
  = length (df_reg df reg_year).
Proof.
  apply length_values_present, Forall_forall. intros r Hr.
  apply elem_of_df_reg in Hr. simpl. tauto.
Qed.

Lemma regression_fitted (df : DataFrame) (reg_year : Z) :
  (2 ≤ length (df_reg df reg_year))%nat →
  regression df reg_year =
    match polyfit (values col_Total_Assisted_Units (df_reg df reg_year))
                  (values col_Percent_Affordable (df_reg df reg_year)) with
    | Some (b, a) =>
        Fitted b a (r2 a b (values col_Total_Assisted_Units (df_reg df reg_year))
                           (values col_Percent_Affordable (df_reg df reg_year)))
    | None => LinAlgError
    end.
Proof. intros Hn. unfold regression. cbv zeta. rewrite decide_False by lia. done. Qed.

Local Close Scope Q_scope.

(** ** Filter Engine *)

(** C5. Filtering by a year keeps only rows of that year, loses none of
    them, keeps them in table order, and has as many rows as the table
    counts for the year; it is non-empty for a year of the dataset and
    empty, not an error, for any other year. *)
Theorem df_year_exact (df : DataFrame) (Y : Z) :
  (∀ r, r ∈ df_year df Y → Year r = Y) ∧
  (∀ r, r ∈ df → Year r = Y → r ∈ df_year df Y) ∧
  df_year df Y `sublist_of` df ∧
  length (df_year df Y) = year_count df Y ∧
  (Y ∈ years df → df_year df Y ≠ []) ∧
  (Y ∉ years df → df_year df Y = []).
Proof.
  repeat split.
  - intros r Hr. by apply list_elem_of_filter in Hr as [? _].
  - intros r Hr HY. by apply list_elem_of_filter.
  - apply sublist_filter.
  - apply length_df_year.
  - intros HY Hnil. apply elem_of_years in HY as (r & Hr & HY).
    assert (r ∈ df_year df Y) as Hin by (by apply list_elem_of_filter).
    rewrite Hnil in Hin. by apply not_elem_of_nil in Hin.
  - intros HY. destruct (df_year df Y) as [|r l] eqn:E; [done|]. exfalso.
    assert (r ∈ df_year df Y) as Hin by (rewrite E; left).
    apply list_elem_of_filter in Hin as [Hr Hin]. apply HY, elem_of_years. eauto.
Qed.

(** C7. The year range [Y, Y] selects the same rows, in the same order,
    as the single year Y. *)
Theorem df_range_single_year (df : DataFrame) (Y : Z) :
  df_range df (Y, Y) = df_year df Y.
Proof.
  unfold df_range, df_year. apply list_filter_iff. intros r. simpl. lia.
Qed.

(** C8, as the spec states it, fails: a non-empty view whose census cells
    are all missing has NaN as observed minimum and maximum, and no row
    passes a comparison with NaN. *)
Lemma df_range_units_all_missing :
  census_missing ≠ [] ∧
  min_units col_2010_Census_Units census_missing = None ∧
  max_units col_2010_Census_Units census_missing = None ∧
  df_range_units col_2010_Census_Units census_missing = [].
Proof. by repeat split. Qed.

(** C8, amended. On a view with at least one present cell in the column,
    the range filter set to the observed minimum and maximum keeps a row:
    it keeps exactly the rows whose cell is present, and so every row
    whose value lies within the bounds. *)
Theorem df_range_units_nonempty (c : Column) (view : DataFrame)
    (Hpresent : ∃ r, r ∈ view ∧ is_Some (cell c r)) :
  df_range_units c view ≠ [] ∧
  df_range_units c view = filter (λ r, is_Some (cell c r)) view ∧
  (∀ r, r ∈ view →
     float_le (min_units c view) (cell c r) →
     float_le (cell c r) (max_units c view) →
     r ∈ df_range_units c view).
Proof.
  repeat split.
  - destruct Hpresent as (r & Hr & Hs). intros Hnil.
    assert (r ∈ df_range_units c view) as Hin by (by apply elem_of_df_range_units).
    rewrite Hnil in Hin. by apply not_elem_of_nil in Hin.
  - apply df_range_units_present.
  - intros r Hr Hlo Hhi. by apply list_elem_of_filter.
Qed.

(** The amended C8 at the linear set, whose census cells are present. *)
Lemma df_range_units_nonempty_witness :
  (∃ r, r ∈ linear_set ∧ is_Some (cell col_2010_Census_Units r)) ∧
  df_range_units col_2010_Census_Units linear_set ≠ [].
Proof.
  assert (∃ r, r ∈ linear_set ∧ is_Some (cell col_2010_Census_Units r)) as Hp.
  { eexists. split; [left|]. simpl. eauto. }
  split; [exact Hp|].
  exact (proj1 (df_range_units_nonempty col_2010_Census_Units linear_set Hp)).
Defined.

(** X19. Whatever sort of the interface line 37 runs, for n ≥ 1 the
    top-N view is the first n rows of the view rearranged in descending
    order of the column, missing cells last: it is sorted, its rows are
    rows of the view, it has min(n, size) rows, every row it keeps ranks
    at least as high as every row it drops, and when n is at least the
    view size it holds all rows of the view. The column values it shows
    are those of the first n rows of the insertion sort; the relative
    order of rows with equal cells is left open. *)
Theorem top_n_by_spec `{SortValues} (c : Column) (n : nat) (view : DataFrame)
    (Hn : (1 ≤ n)%nat) :
  top_n_by c n view = take n (sort_values c false view) ∧
  sort_values c false view ≡ₚ view ∧
  StronglySorted (row_order c false) (top_n_by c n view) ∧
  top_n_by c n view ⊆+ view ∧
  length (top_n_by c n view) = Nat.min n (length view) ∧
  (∀ r1 r2, r1 ∈ top_n_by c n view → r2 ∈ drop n (sort_values c false view) →
     row_order c false r1 r2) ∧
  ((length view ≤ n)%nat →
     top_n_by c n view ≡ₚ view ∧ length (top_n_by c n view) = length view) ∧
  canon c <$> top_n_by c n view = canon c <$> take n (insertion_sort c false view).
Proof.
  split; [done|]. split; [apply sort_values_perm|].
  split; [apply top_n_by_sorted|]. split; [apply top_n_by_submseteq|].
  split; [apply top_n_by_length|]. split; [apply top_n_by_dominates|]. split.
  - intros Hle. rewrite top_n_by_length, top_n_by_all by done.
    split; [apply sort_values_perm|lia].
  - unfold top_n_by, head. rewrite !fmap_take. f_equal.
    apply (sorted_cells_unique c false).
    + apply sort_values_sorted.
    + apply insertion_sort_sorted.
    + by rewrite sort_values_perm, insertion_sort_perm.
Qed.

(** X19 at the towns of 2014, top 2 of the three. *)
Lemma top_n_by_spec_witness :
  (1 ≤ 2)%nat ∧
  Town <$> @top_n_by by_insertion col_Percent_Affordable 2 (df_year distinct_towns 2014)
    = ["Ansonia"; "Andover"] ∧
  length (@top_n_by by_insertion col_Percent_Affordable 2 (df_year distinct_towns 2014))
    = Nat.min 2 (length (df_year distinct_towns 2014)).
Proof.
  assert (1 ≤ 2)%nat as Hn by lia.
  split; [exact Hn|]. split; [by vm_compute|].
  exact (proj1 (proj2 (proj2 (proj2 (proj2
    (@top_n_by_spec by_insertion col_Percent_Affordable 2 (df_year distinct_towns 2014) Hn)))))).
Defined.

(** C6. The time series of a town holds exactly the rows of that town,
    each as often as the table does, with Year non-decreasing from first
    row to last, whatever the row order of the table. *)
Theorem df_town_time_series `{SortValues} (df : DataFrame) (T : string) :
  df_town df T ≡ₚ filter (λ r, Town r = T) df ∧
  (∀ r, r ∈ df_town df T ↔ r ∈ df ∧ Town r = T) ∧
  StronglySorted Z.le (Year <$> df_town df T) ∧
  (∀ df', df' ≡ₚ df →
     df_town df' T ≡ₚ df_town df T ∧ StronglySorted Z.le (Year <$> df_town df' T)).
Proof.
  assert (∀ d, StronglySorted Z.le (Year <$> df_town d T)) as Hsorted.
  { intros d. unfold df_town.
    eapply StronglySorted_fmap; [|apply (sort_values_sorted col_Year true)].
    intros r1 r2. unfold row_order. simpl. by rewrite <-Zle_Qle. }
  split; [apply sort_values_perm|]. split; [|split; [apply Hsorted|]].
  - intros r. unfold df_town. rewrite sort_values_perm, list_elem_of_filter. tauto.
  - intros df' Hperm. split; [|apply Hsorted].
    unfold df_town. by rewrite !sort_values_perm, Hperm.
Qed.

Example df_town_shuffled_years :
  Year <$> @df_town by_insertion shuffled_years "Andover" = [2011; 2012; 2013] ∧
  Year <$> @df_town by_insertion_reversed shuffled_years "Andover" = [2011; 2012; 2013].
Proof. by vm_compute. Qed.

(** X20. Whatever sort of the interface line 37 runs, for n ≥ 1,
    applying top-N twice yields the rows of applying it once, each as
    often, showing the same sequence of column values; the two results
    are equal, row for row, when no two different rows of the first
    result have equal column values. *)
Theorem top_n_by_idempotent_up_to_ties `{SortValues} (c : Column) (n : nat)
    (view : DataFrame) (Hn : (1 ≤ n)%nat) :
  top_n_by c n (top_n_by c n view) ≡ₚ top_n_by c n view ∧
  canon c <$> top_n_by c n (top_n_by c n view) = canon c <$> top_n_by c n view ∧
  (NoTies c (top_n_by c n view) →
     top_n_by c n (top_n_by c n view) = top_n_by c n view).
Proof.
  rewrite top_n_by_twice.
  pose proof (sort_values_perm c false (top_n_by c n view)) as Hperm.
  pose proof (sort_values_sorted c false (top_n_by c n view)) as Hs2.
  pose proof (top_n_by_sorted c n view) as Hs1.
  split; [done|]. split.
  - by apply (sorted_cells_unique c false).
  - intros Hno. by apply (sorted_rows_unique c false).
Qed.

(** X20 at the towns of 2014, top 2 of the three: the two do not tie,
    and the second pass changes nothing. *)
Lemma top_n_by_idempotent_witness :
  (1 ≤ 2)%nat ∧
  NoTies col_Percent_Affordable
    (@top_n_by by_insertion_reversed col_Percent_Affordable 2 (df_year distinct_towns 2014)) ∧
  @top_n_by by_insertion_reversed col_Percent_Affordable 2
    (@top_n_by by_insertion_reversed col_Percent_Affordable 2 (df_year distinct_towns 2014))
  = @top_n_by by_insertion_reversed col_Percent_Affordable 2 (df_year distinct_towns 2014).
Proof.
  assert (1 ≤ 2)%nat as Hn by lia.
  assert (NoTies col_Percent_Affordable
    (@top_n_by by_insertion_reversed col_Percent_Affordable 2
       (df_year distinct_towns 2014))) as Hno.
  { intros r1 r2 H1 H2. vm_compute in H1, H2.
    repeat (apply elem_of_cons in H1 as [->|H1]); [| |by apply not_elem_of_nil in H1];
    repeat (apply elem_of_cons in H2 as [->|H2]);
      try (by apply not_elem_of_nil in H2); try done; by vm_compute. }
  split; [exact Hn|]. split; [exact Hno|].
  exact (proj2 (proj2
    (@top_n_by_idempotent_up_to_ties by_insertion_reversed col_Percent_Affordable 2
       (df_year distinct_towns 2014) Hn)) Hno).
Defined.

(** ** Regression Engine *)

Local Open Scope Q_scope.

(** C1. On {(1,2),(2,4),(3,6)} the fit returns slope 2 and intercept 0 and
    R² is 1, exactly and so within 1e-9; the fitted line leaves no
    residual, which no other line can undercut. *)
Theorem regression_linear_set :
  ∃ b a r,
    regression linear_set 2011 = Fitted b a (Some r) ∧
    b == 2 ∧ a == 0 ∧ r == 1 ∧
    Qabs (b - 2) <= 1 # 1000000000 ∧
    Qabs (a - 0) <= 1 # 1000000000 ∧
    Qabs (r - 1) <= 1 # 1000000000 ∧
    values col_Total_Assisted_Units (df_reg linear_set 2011) = [1; 2; 3] ∧
    values col_Percent_Affordable (df_reg linear_set 2011) = [2; 4; 6] ∧
    ss_res a b [1; 2; 3] [2; 4; 6] == 0 ∧
    ∀ a' b', ss_res a b [1; 2; 3] [2; 4; 6] <= ss_res a' b' [1; 2; 3] [2; 4; 6].
Proof.
  eexists _, _, _. split; [by vm_compute|].
  repeat split; try by vm_compute.
  intros a' b'. apply (polyfit_least_squares [1; 2; 3] [2; 4; 6]); by vm_compute.
Qed.

(** C2. The usable rows of a year are its rows with both Total Assisted
    Units and Percent Affordable present. The regression section ends in
    the InsufficientData warning, and nothing else, exactly when fewer
    than 2 usable rows remain; with 2 or more it goes on to the fit. A
    single usable row gives InsufficientData. *)
Theorem regression_insufficient_iff (df : DataFrame) (reg_year : Z) :
  (∀ r, r ∈ df_reg df reg_year ↔
        r ∈ df ∧ Year r = reg_year ∧
        is_Some (Total_Assisted_Units r) ∧ is_Some (Percent_Affordable r)) ∧
  ((length (df_reg df reg_year) < 2)%nat ↔
     ∃ w, regression df reg_year = InsufficientData w) ∧
  ((length (df_reg df reg_year) < 2)%nat →
     regression df reg_year
     = InsufficientData "Not enough data points for regression in this year.") ∧
  (length (df_reg df reg_year) = 1%nat →
     regression df reg_year
     = InsufficientData "Not enough data points for regression in this year.") ∧
  (length (df_reg single_usable 2012) = 1%nat ∧
   regression single_usable 2012
   = InsufficientData "Not enough data points for regression in this year.").
Proof.
  assert ((length (df_reg df reg_year) < 2)%nat →
          regression df reg_year
          = InsufficientData "Not enough data points for regression in this year.")
    as Hfew.
  { intros Hlt. unfold regression. cbv zeta. by rewrite decide_True. }
  split; [apply elem_of_df_reg|]. split; [split|].
  - eauto.
  - intros [w Hw]. destruct (decide (length (df_reg df reg_year) < 2)%nat) as [|Hge]; [done|].
    rewrite regression_fitted in Hw by lia. by destruct (polyfit _ _) as [[??]|].
  - split; [done|]. split; [|by vm_compute]. intros H1. apply Hfew. lia.
Qed.

Section Rounding.
Import PrimFloat.
Local Open Scope float_scope.

(** C3. With y values that are all the same the guard of line 203 need
    not be taken: it tests the rounded SS_tot against 0. On the usable
    rows (1, 0.1), (2, 0.1), (3, 0.1) the sum 0.1 + 0.1 + 0.1 is rounded
    up, [np.mean] returns 0.10000000000000002, SS_tot is 3 * 2^-112 and
    not 0, and R² is computed by the division for whatever coefficients
    the fit produced: 1 for slope 0 and intercept 0.1, and -0.667 for
    coefficients one rounding error away from them. On the constant set
    of the spec, {(1,5),(2,5),(3,5)}, the mean is exact and R² is NaN, as
    it is on both sets in exact arithmetic. *)
Theorem r2_constant_y_rounded :
  let x := [1; 2; 3] in
  let y := [Doubles.tenth; Doubles.tenth; Doubles.tenth] in
  Doubles.np_mean y = Some 0x1.999999999999bp-4 ∧
  Doubles.ss_tot y = Some 0x1.8p-111 ∧
  (∀ a b, Doubles.r2 a b x y
          = sr ← Doubles.ss_res a b x y; Some (1 - sr / 0x1.8p-111)) ∧
  Doubles.r2 Doubles.tenth 0 x y = Some 1 ∧
  Doubles.r2 0x1.999999999999dp-4 (-0x1p-56) x y = Some (-0x1.5555555555556p-1) ∧
  (∀ a b, Doubles.r2 a b x [5; 5; 5] = Some nan) ∧
  (∃ b a, regression tenth_set 2011 = Fitted b a None ∧ (b == 0)%Q ∧ (a == 1 # 10)%Q) ∧
  (∃ b a, regression constant_set 2011 = Fitted b a None ∧ (b == 0)%Q ∧ (a == 5)%Q).
Proof.
  cbv zeta. split; [by vm_compute|]. split; [by vm_compute|].
  split; [intros a b; by vm_compute|]. split; [by vm_compute|].
  split; [by vm_compute|]. split; [intros a b; by vm_compute|].
  split; eexists _, _; (split; [by vm_compute|]); by split; vm_compute.
Qed.
End Rounding.

(** C10. On usable rows (at least 2) whose y values are not all the same,
    SS_tot is not zero, SS_res is a sum of squares and so non-negative,
    and R² = 1 − SS_res/SS_tot is a number at most 1, for whatever
    coefficients the fit produced; the fit produces some as soon as the x
    values are not all the same. *)
Theorem r2_at_most_one (df : DataFrame) (reg_year : Z)
    (Husable : (2 ≤ length (df_reg df reg_year))%nat)
    (Hvaries : varies (values col_Percent_Affordable (df_reg df reg_year))) :
  ¬ ss_tot (values col_Percent_Affordable (df_reg df reg_year)) == 0 ∧
  (∀ a b,
     0 <= ss_res a b (values col_Total_Assisted_Units (df_reg df reg_year))
                     (values col_Percent_Affordable (df_reg df reg_year)) ∧
     r2 a b (values col_Total_Assisted_Units (df_reg df reg_year))
            (values col_Percent_Affordable (df_reg df reg_year))
     = Some (1 - ss_res a b (values col_Total_Assisted_Units (df_reg df reg_year))
                            (values col_Percent_Affordable (df_reg df reg_year))
                 / ss_tot (values col_Percent_Affordable (df_reg df reg_year))) ∧
     1 - ss_res a b (values col_Total_Assisted_Units (df_reg df reg_year))
                    (values col_Percent_Affordable (df_reg df reg_year))
         / ss_tot (values col_Percent_Affordable (df_reg df reg_year)) <= 1) ∧
  (∀ b a r, regression df reg_year = Fitted b a r → ∃ q, r = Some q ∧ q <= 1) ∧
  (varies (values col_Total_Assisted_Units (df_reg df reg_year)) →
   ∃ b a q, regression df reg_year = Fitted b a (Some q) ∧ q <= 1).
Proof.
  set (x := values col_Total_Assisted_Units (df_reg df reg_year)) in *.
  set (y := values col_Percent_Affordable (df_reg df reg_year)) in *.
  assert (¬ ss_tot y == 0) as Htot by (by apply varies_ss_tot).
  split; [done|]. split; [|split].
  - intros a b. split; [apply ss_res_nonneg|].
    destruct (r2_le_1 a b x y Htot) as (r & Hr & Hle).
    unfold r2 in *. rewrite decide_True in * by done. injection Hr as <-. done.
  - rewrite (regression_fitted df reg_year Husable). fold x y. intros b a r Hfit.
    destruct (polyfit x y) as [[b' a']|]; [|done]. injection Hfit as _ _ <-.
    apply r2_le_1, Htot.
  - rewrite (regression_fitted df reg_year Husable). fold x y. intros Hx.
    destruct (polyfit x y) as [[b a]|] eqn:Hfit; [|by apply polyfit_varies in Hfit].
    destruct (r2_le_1 a b x y Htot) as (q & Hq & Hle).
    exists b, a, q. by rewrite Hq.
Qed.

(** C10 at the linear set. *)
Lemma r2_at_most_one_witness :
  (2 ≤ length (df_reg linear_set 2011))%nat ∧
  ¬ ss_tot (values col_Percent_Affordable (df_reg linear_set 2011)) == 0.
Proof.
  assert (2 ≤ length (df_reg linear_set 2011))%nat as Hu by (vm_compute; lia).
  assert (varies (values col_Percent_Affordable (df_reg linear_set 2011))) as Hv.
  { exists 2, 4. split; [left|]. split; [right; left|]. by vm_compute. }
  split; [exact Hu|].
  exact (proj1 (r2_at_most_one linear_set 2011 Hu Hv)).
Defined.

Local Close Scope Q_scope.

(** * Further properties of the script *)

(** ** Loading *)

(** X1. The rename keeps the number and the positions of the labels,
    replaces the label with the leading space wherever it occurs and no
    other, leaves no such label behind, changes nothing when applied a
    second time, and is the identity on a header without that label. *)
Theorem rename_clean_up (header : list string) :
  length (rename clean_up header) = length header ∧
  (∀ i label, header !! i = Some label →
     label ≠ " Single Family CHFA/ USDA Mortgages" →
     rename clean_up header !! i = Some label) ∧
  (∀ i, header !! i = Some " Single Family CHFA/ USDA Mortgages" →
     rename clean_up header !! i = Some "Single Family CHFA/USDA Mortgages") ∧
  (" Single Family CHFA/ USDA Mortgages" ∉ rename clean_up header) ∧
  rename clean_up (rename clean_up header) = rename clean_up header ∧
  (" Single Family CHFA/ USDA Mortgages" ∉ header → rename clean_up header = header).
Proof.
  assert (∀ label, label ≠ " Single Family CHFA/ USDA Mortgages" →
            default label (clean_up !! label) = label) as Hother.
  { intros label Hne. unfold clean_up. by rewrite lookup_singleton_ne. }
  assert (default " Single Family CHFA/ USDA Mortgages"
            (clean_up !! " Single Family CHFA/ USDA Mortgages")
          = "Single Family CHFA/USDA Mortgages") as Hold.
  { unfold clean_up. by rewrite lookup_singleton_eq. }
  assert (∀ label, default label (clean_up !! label)
                   ≠ " Single Family CHFA/ USDA Mortgages") as Hgone.
  { intros label. destruct (decide (label = " Single Family CHFA/ USDA Mortgages"))
      as [->|Hne]; [by rewrite Hold|by rewrite Hother]. }
  unfold rename. repeat split.
  - by rewrite length_fmap.
  - intros i label Hi Hne. rewrite list_lookup_fmap, Hi. simpl. by rewrite Hother.
  - intros i Hi. rewrite list_lookup_fmap, Hi. simpl. by rewrite Hold.
  - intros Hin. apply list_elem_of_fmap in Hin as (label & Heq & _).
    by apply (Hgone label).
  - rewrite <-list_fmap_compose. apply list_fmap_ext. intros i label _. simpl.
    apply Hother, Hgone.
  - intros Hnot. rewrite <-(list_fmap_id header) at 2.
    apply list_fmap_ext. intros i label Hi. simpl. apply Hother.
    intros ->. apply Hnot. by eapply list_elem_of_lookup_2.
Qed.

(** ** Widget lists *)

Lemma StronglySorted_strict {A} (R R' : relation A) (l : list A) :
  (∀ x y, R x y → x ≠ y → R' x y) →
  StronglySorted R l → NoDup l → StronglySorted R' l.
Proof.
  intros HR. induction 1 as [|x l Hl IH Hx]; intros Hnd; [constructor|].
  apply NoDup_cons in Hnd as [Hnin Hnd]. constructor; [by apply IH|].
  rewrite Forall_forall in Hx |- *. intros y Hy. apply HR; [by apply Hx|].
  by intros ->.
Qed.

(** X2. The year choices are the years that occur in the table, each
    once, in strictly increasing order; there is none exactly when the
    table has no row. *)
Theorem years_sorted_unique (df : DataFrame) :
  StronglySorted Z.lt (years df) ∧
  NoDup (years df) ∧
  (∀ y, y ∈ years df ↔ ∃ r, r ∈ df ∧ Year r = y) ∧
  (years df = [] ↔ df = []).
Proof.
  assert (NoDup (years df)) as Hnd.
  { unfold years. rewrite merge_sort_Permutation. apply NoDup_remove_dups. }
  split; [|split; [done|split; [apply elem_of_years|]]].
  - apply (StronglySorted_strict Z.le); [intros y1 y2 ??; lia| |exact Hnd].
    unfold years. apply StronglySorted_merge_sort; apply _.
  - split.
    + intros Hnil. destruct df as [|r df]; [done|]. exfalso.
      assert (Year r ∈ years (r :: df)) as Hin by (apply elem_of_years; exists r; split; [left|done]).
      rewrite Hnil in Hin. by apply not_elem_of_nil in Hin.
    + by intros ->.
Qed.

(** X3. The town choices are the towns that occur in the table, each once,
    in strictly increasing order of their names. *)
Theorem towns_sorted_unique (df : DataFrame) :
  StronglySorted (λ t1 t2, String.le t1 t2 ∧ t1 ≠ t2) (towns df) ∧
  NoDup (towns df) ∧
  (∀ t, t ∈ towns df ↔ ∃ r, r ∈ df ∧ Town r = t).
Proof.
  assert (NoDup (towns df)) as Hnd.
  { unfold towns. rewrite merge_sort_Permutation. apply NoDup_remove_dups. }
  split; [|split; [done|]].
  - apply (StronglySorted_strict String.le); [done| |exact Hnd].
    unfold towns. apply StronglySorted_merge_sort; apply _.
  - intros t. unfold towns.
    rewrite merge_sort_Permutation, elem_of_remove_dups, list_elem_of_fmap.
    split; intros (r & H1 & H2); exists r; by split.
Qed.

(** ** Year range *)

Lemma foldr_Zmin_spec (y : Z) (l : list Z) :
  foldr Z.min y l ∈ y :: l ∧ ∀ x, x ∈ y :: l → foldr Z.min y l ≤ x.
Proof.
  induction l as [|z l [IHin IHle]]; simpl.
  - split; [left|]. intros x Hx. apply list_elem_of_singleton in Hx as ->. lia.
  - split.
    + destruct (Z.min_spec z (foldr Z.min y l)) as [[_ ->]|[_ ->]].
      * right; left.
      * apply elem_of_cons in IHin as [->|Hin]; [left|right; by right].
    + intros x Hx. pose proof (IHle y ltac:(left)).
      apply elem_of_cons in Hx as [->|Hx]; [lia|].
      apply elem_of_cons in Hx as [->|Hx]; [lia|].
      pose proof (IHle x ltac:(by right)). lia.
Qed.

Lemma foldr_Zmax_spec (y : Z) (l : list Z) :
  foldr Z.max y l ∈ y :: l ∧ ∀ x, x ∈ y :: l → x ≤ foldr Z.max y l.
Proof.
  induction l as [|z l [IHin IHle]]; simpl.
  - split; [left|]. intros x Hx. apply list_elem_of_singleton in Hx as ->. lia.
  - split.
    + destruct (Z.max_spec z (foldr Z.max y l)) as [[_ ->]|[_ ->]].
      * apply elem_of_cons in IHin as [->|Hin]; [left|right; by right].
      * right; left.
    + intros x Hx. pose proof (IHle y ltac:(left)).
      apply elem_of_cons in Hx as [->|Hx]; [lia|].
      apply elem_of_cons in Hx as [->|Hx]; [lia|].
      pose proof (IHle x ltac:(by right)). lia.
Qed.

Lemma min_year_spec (df : DataFrame) :
  df ≠ [] →
  ∃ lo, min_year df = Some lo ∧ (∃ r, r ∈ df ∧ Year r = lo) ∧ ∀ r, r ∈ df → lo ≤ Year r.
Proof.
  intros Hne. unfold min_year. destruct (Year <$> df) as [|y l] eqn:E.
  { by apply fmap_nil_inv in E. }
  destruct (foldr_Zmin_spec y l) as [Hin Hle]. exists (foldr Z.min y l).
  split; [done|]. rewrite <-E in Hin, Hle. split.
  - apply list_elem_of_fmap in Hin as (r & -> & Hr). eauto.
  - intros r Hr. apply Hle, list_elem_of_fmap. eauto.
Qed.

Lemma max_year_spec (df : DataFrame) :
  df ≠ [] →
  ∃ hi, max_year df = Some hi ∧ (∃ r, r ∈ df ∧ Year r = hi) ∧ ∀ r, r ∈ df → Year r ≤ hi.
Proof.
  intros Hne. unfold max_year. destruct (Year <$> df) as [|y l] eqn:E.
  { by apply fmap_nil_inv in E. }
  destruct (foldr_Zmax_spec y l) as [Hin Hle]. exists (foldr Z.max y l).
  split; [done|]. rewrite <-E in Hin, Hle. split.
  - apply list_elem_of_fmap in Hin as (r & -> & Hr). eauto.
  - intros r Hr. apply Hle, list_elem_of_fmap. eauto.
Qed.

Lemma filter_all {A} (P : A → Prop) `{!∀ x, Decision (P x)} (l : list A) :
  (∀ x, x ∈ l → P x) → filter P l = l.
Proof.
  induction l as [|a l IH]; intros Hall; [done|].
  rewrite filter_cons_True by (apply Hall; left).
  f_equal. apply IH. intros x Hx. apply Hall. by right.
Qed.

Lemma years_sorted (df : DataFrame) : StronglySorted Z.le (years df).
Proof. unfold years. apply StronglySorted_merge_sort; apply _. Qed.

(** X4. On a table with at least one row the bounds of the year slider
    exist, are years of the table, are the first and the last of the year
    choices, enclose the year of every row, and the default range, from
    the one to the other, keeps the whole table in its order. *)
Theorem default_year_range (df : DataFrame) (Hrows : df ≠ []) :
  ∃ lo hi,
    min_year df = Some lo ∧ max_year df = Some hi ∧
    lo ≤ hi ∧
    (∀ r, r ∈ df → lo ≤ Year r ≤ hi) ∧
    years df !! 0%nat = Some lo ∧ last (years df) = Some hi ∧
    df_range df (lo, hi) = df.
Proof.
  destruct (min_year_spec df Hrows) as (lo & Hlo & (rlo & Hrlo & Hylo) & Hmin).
  destruct (max_year_spec df Hrows) as (hi & Hhi & (rhi & Hrhi & Hyhi) & Hmax).
  exists lo, hi. split; [done|]. split; [done|].
  split; [specialize (Hmin rhi Hrhi); lia|].
  split; [intros r Hr; split; auto|].
  assert (lo ∈ years df) as Hlo_in by (apply elem_of_years; eauto).
  assert (hi ∈ years df) as Hhi_in by (apply elem_of_years; eauto).
  assert (∀ y, y ∈ years df → lo ≤ y ≤ hi) as Hbetween.
  { intros y (r & Hr & <-)%elem_of_years. split; auto. }
  pose proof (years_sorted df) as Hsorted.
  split; [|split].
  - destruct (years df) as [|y0 l]; [by apply not_elem_of_nil in Hlo_in|].
    simpl. f_equal. apply StronglySorted_inv in Hsorted as [_ Hall].
    rewrite Forall_forall in Hall.
    pose proof (Hbetween y0 ltac:(left)).
    apply elem_of_cons in Hlo_in as [->|Hin]; [done|].
    specialize (Hall lo Hin). lia.
  - destruct (last (years df)) as [yl|] eqn:Hlast.
    + f_equal. apply last_Some in Hlast as [l' Hl']. rewrite Hl' in *.
      pose proof (Hbetween yl ltac:(apply elem_of_app; right; left)).
      apply elem_of_app in Hhi_in as [Hin|Hin].
      * pose proof (StronglySorted_app_1_elem_of _ _ _ hi yl Hsorted Hin ltac:(left)). lia.
      * by apply list_elem_of_singleton in Hin.
    + apply last_None in Hlast. rewrite Hlast in Hhi_in. by apply not_elem_of_nil in Hhi_in.
  - unfold df_range. apply filter_all. intros r Hr. simpl. split; auto.
Qed.

(** X4 at the table of the tied towns, whose years are 2015 and 2016. *)
Lemma default_year_range_witness :
  tied_towns ≠ [] ∧ min_year tied_towns = Some 2015 ∧ max_year tied_towns = Some 2016 ∧
  ∃ lo hi, min_year tied_towns = Some lo ∧ max_year tied_towns = Some hi ∧
           df_range tied_towns (lo, hi) = tied_towns.
Proof.
  assert (tied_towns ≠ []) as Hne by done.
  split; [exact Hne|]. split; [by vm_compute|]. split; [by vm_compute|].
  destruct (default_year_range tied_towns Hne) as (lo & hi & H1 & H2 & _ & _ & _ & _ & H3).
  exists lo, hi. by repeat split.
Defined.

Lemma year_count_cons (r : Row) (df : DataFrame) (y : Z) :
  year_count (r :: df) y = ((if decide (Year r = y) then 1 else 0) + year_count df y)%nat.
Proof.
  unfold year_count. rewrite fmap_cons. cbn [count_occ].
  destruct (Z.eq_dec (Year r) y), (decide (Year r = y)); simpl; congruence.
Qed.

Lemma sum_list_with_indicator (x : Z) (ys : list Z) :
  NoDup ys →
  sum_list_with (λ y, if decide (x = y) then 1 else 0)%nat ys
  = (if decide (x ∈ ys) then 1 else 0)%nat.
Proof.
  induction 1 as [|y ys Hnin Hnd IH]; simpl.
  - destruct (decide (x ∈ [])) as [Hin|_]; [by apply not_elem_of_nil in Hin|done].
  - rewrite IH.
    destruct (decide (x = y)) as [Heq|Hne], (decide (x ∈ ys)) as [Hin|Hin],
      (decide (x ∈ y :: ys)) as [Hin'|Hin']; subst; try done.
    + exfalso. apply Hin'. left.
    + exfalso. apply Hin'. by right.
    + exfalso. by apply elem_of_cons in Hin' as [?|?].
Qed.

Lemma sum_year_count_cons (r : Row) (df : DataFrame) (ys : list Z) :
  sum_list_with (year_count (r :: df)) ys
  = (sum_list_with (λ y, if decide (Year r = y) then 1 else 0) ys
     + sum_list_with (year_count df) ys)%nat.
Proof.
  induction ys as [|y ys IH]; simpl; [done|]. rewrite IH, year_count_cons. lia.
Qed.

(** X5. The year-range view holds exactly the rows whose year lies in the
    inclusive range, in table order; it is empty when the lower end is
    above the upper end; its size is the sum of the per-year row counts
    over the years of the range; and narrowing an already narrowed view
    gives what narrowing the table gives. *)
Theorem df_range_years (df : DataFrame) (lo hi : Z) :
  (∀ r, r ∈ df_range df (lo, hi) ↔ r ∈ df ∧ lo ≤ Year r ≤ hi) ∧
  df_range df (lo, hi) `sublist_of` df ∧
  (hi < lo → df_range df (lo, hi) = []) ∧
  length (df_range df (lo, hi))
    = sum_list_with (year_count df) (seqZ lo (hi - lo + 1)) ∧
  (∀ lo' hi', lo' ≤ lo → hi ≤ hi' →
     df_range (df_range df (lo', hi')) (lo, hi) = df_range df (lo, hi)).
Proof.
  split; [|split; [|split; [|split]]].
  - intros r. unfold df_range. rewrite list_elem_of_filter. simpl. tauto.
  - apply sublist_filter.
  - intros Hinv. unfold df_range.
    induction df as [|r df IH]; [done|].
    rewrite filter_cons_False; [done|]. simpl. lia.
  - unfold df_range. induction df as [|r df IH]; simpl.
    + induction (seqZ lo (hi - lo + 1)) as [|y ys IHys]; [done|]. simpl. by rewrite <-IHys.
    + rewrite filter_cons, sum_year_count_cons.
      rewrite sum_list_with_indicator by apply NoDup_seqZ.
      rewrite <-IH. simpl.
      destruct (decide (lo ≤ Year r ∧ Year r ≤ hi)) as [Hin|Hout].
      * rewrite decide_True; [done|]. apply elem_of_seqZ. lia.
      * rewrite decide_False; [done|]. rewrite elem_of_seqZ. lia.
  - intros lo' hi' Hlo Hhi. unfold df_range. rewrite list_filter_filter.
    apply list_filter_iff. intros r. simpl. lia.
Qed.

(** ** Census-unit range *)

Lemma foldr_Qmin_in (x0 : Q) (l : list Q) : foldr Qmin x0 l ∈ x0 :: l.
Proof.
  induction l as [|y l IH]; simpl; [left|].
  unfold Qmin at 1, GenericMinMax.gmin.
  destruct (y ?= foldr Qmin x0 l)%Q; try (right; left).
  apply elem_of_cons in IH as [->|IH]; [left|right; by right].
Qed.

Lemma foldr_Qmax_in (x0 : Q) (l : list Q) : foldr Qmax x0 l ∈ x0 :: l.
Proof.
  induction l as [|y l IH]; simpl; [left|].
  unfold Qmax at 1, GenericMinMax.gmax.
  destruct (y ?= foldr Qmax x0 l)%Q; try (right; left).
  apply elem_of_cons in IH as [->|IH]; [left|right; by right].
Qed.

Lemma series_min_in (l : list Q) (m : Q) : series_min l = Some m → m ∈ l.
Proof. destruct l as [|x0 l]; intros [= <-]. apply foldr_Qmin_in. Qed.

Lemma series_max_in (l : list Q) (m : Q) : series_max l = Some m → m ∈ l.
Proof. destruct l as [|x0 l]; intros [= <-]. apply foldr_Qmax_in. Qed.

(** X6. On a view whose present cells in the column are doubles, so that
    [float(...)] of lines 74 and 75 returns its argument unchanged, and
    with at least one present cell: the two ends of the unit slider
    exist, each is the cell of some row of the view and a double itself,
    the lower is at most the upper, and every present cell of the view
    lies between them. *)
Theorem units_bounds_attained (c : Column) (view : DataFrame)
    (Hdouble : Forall is_double (values c view))
    (Hpresent : ∃ r, r ∈ view ∧ is_Some (cell c r)) :
  ∃ lo hi,
    min_units c view = Some lo ∧ max_units c view = Some hi ∧
    is_double lo ∧ is_double hi ∧
    (lo <= hi)%Q ∧
    (∃ r, r ∈ view ∧ cell c r = Some lo) ∧
    (∃ r, r ∈ view ∧ cell c r = Some hi) ∧
    (∀ r v, r ∈ view → cell c r = Some v → (lo <= v)%Q ∧ (v <= hi)%Q).
Proof.
  destruct Hpresent as (r0 & Hr0 & [v0 Hv0]).
  assert (v0 ∈ values c view) as Hin0 by (apply elem_of_values; eauto).
  destruct (series_min_spec _ _ Hin0) as (lo & Hlo & Hle0).
  destruct (series_max_spec _ _ Hin0) as (hi & Hhi & Hge0).
  rewrite Forall_forall in Hdouble.
  exists lo, hi. unfold min_units, max_units.
  split; [done|]. split; [done|].
  split; [by apply Hdouble, series_min_in|].
  split; [by apply Hdouble, series_max_in|].
  split; [by eapply Qle_trans|].
  split; [by apply elem_of_values, series_min_in|].
  split; [by apply elem_of_values, series_max_in|].
  intros r v Hr Hv.
  assert (v ∈ values c view) as Hin by (apply elem_of_values; eauto).
  destruct (series_min_spec _ _ Hin) as (lo' & Hlo' & Hle).
  destruct (series_max_spec _ _ Hin) as (hi' & Hhi' & Hge).
  rewrite Hlo in Hlo'. rewrite Hhi in Hhi'. by simplify_eq.
Qed.

(** X6 at the towns of 2014, whose census units are 1317, 8148 and 1903. *)
Lemma units_bounds_attained_witness :
  Forall is_double (values col_2010_Census_Units distinct_towns) ∧
  (∃ r, r ∈ distinct_towns ∧ is_Some (cell col_2010_Census_Units r)) ∧
  min_units col_2010_Census_Units distinct_towns = Some 1317%Q ∧
  max_units col_2010_Census_Units distinct_towns = Some 8148%Q ∧
  ∃ lo hi, min_units col_2010_Census_Units distinct_towns = Some lo ∧
           max_units col_2010_Census_Units distinct_towns = Some hi ∧ (lo <= hi)%Q.
Proof.
  assert (Forall is_double (values col_2010_Census_Units distinct_towns)) as Hd.
  { repeat constructor.
    - exists 1317, 0. split; [lia|]. split; [lia|]. by vm_compute.
    - exists 8148, 0. split; [lia|]. split; [lia|]. by vm_compute.
    - exists 1903, 0. split; [lia|]. split; [lia|]. by vm_compute. }
  assert (∃ r, r ∈ distinct_towns ∧ is_Some (cell col_2010_Census_Units r)) as Hp.
  { eexists. split; [left|]. simpl. eauto. }
  split; [exact Hd|]. split; [exact Hp|]. split; [by vm_compute|]. split; [by vm_compute|].
  destruct (units_bounds_attained col_2010_Census_Units distinct_towns Hd Hp)
    as (lo & hi & H1 & H2 & _ & _ & H3 & _).
  exists lo, hi. by repeat split.
Defined.


(** X8. With both sliders of section 2 left at their defaults, the full
    year range and the full observed unit range, the scatter plot shows
    exactly the rows of the table whose 2010 Census Units is present, in
    table order; it shows the whole table when no such cell is missing. *)
Theorem scatter_default (df : DataFrame) (lo hi : Z)
    (Hlo : min_year df = Some lo) (Hhi : max_year df = Some hi) :
  scatter df (lo, hi)
    (min_units col_2010_Census_Units (df_range df (lo, hi)),
     max_units col_2010_Census_Units (df_range df (lo, hi)))
  = filter (λ r, is_Some (Census_Units_2010 r)) df ∧
  ((∀ r, r ∈ df → is_Some (Census_Units_2010 r)) →
   scatter df (lo, hi)
     (min_units col_2010_Census_Units (df_range df (lo, hi)),
      max_units col_2010_Census_Units (df_range df (lo, hi)))
   = df).
Proof.
  assert (df ≠ []) as Hne by (by intros ->).
  destruct (min_year_spec df Hne) as (lo' & Hlo' & _ & Hmin).
  destruct (max_year_spec df Hne) as (hi' & Hhi' & _ & Hmax).
  assert (lo' = lo) as -> by congruence. assert (hi' = hi) as -> by congruence.
  assert (df_range df (lo, hi) = df) as Hall.
  { unfold df_range. apply filter_all. intros r Hr. simpl. split; auto. }
  unfold scatter. simpl. rewrite Hall.
  change (units_filter col_2010_Census_Units (min_units col_2010_Census_Units df)
            (max_units col_2010_Census_Units df) df)
    with (df_range_units col_2010_Census_Units df).
  rewrite df_range_units_present. split; [done|].
  intros Hcomplete. by apply filter_all.
Qed.

(** X8 at the table of the tied towns, with years 2015 and 2016. *)
Lemma scatter_default_witness :
  min_year tied_towns = Some 2015 ∧ max_year tied_towns = Some 2016 ∧
  scatter tied_towns (2015, 2016)
    (min_units col_2010_Census_Units (df_range tied_towns (2015, 2016)),
     max_units col_2010_Census_Units (df_range tied_towns (2015, 2016)))
  = tied_towns.
Proof.
  assert (min_year tied_towns = Some 2015) as Hlo by (by vm_compute).
  assert (max_year tied_towns = Some 2016) as Hhi by (by vm_compute).
  split; [exact Hlo|]. split; [exact Hhi|].
  apply (proj2 (scatter_default tied_towns 2015 2016 Hlo Hhi)).
  intros r Hr. unfold tied_towns in Hr.
  apply elem_of_app in Hr as [Hr|Hr].
  - apply list_elem_of_fmap in Hr as (t & -> & _). simpl. eauto.
  - apply list_elem_of_singleton in Hr as ->. simpl. eauto.
Defined.

(** ** Bar chart and time series *)

Lemma NoTies_perm (c : Column) (l1 l2 : DataFrame) :
  l1 ≡ₚ l2 → NoTies c l1 → NoTies c l2.
Proof. intros E Hno r1 r2 H1 H2. apply Hno; by rewrite E. Qed.

(** Without ties every sort that meets the interface returns what the
    insertion sort returns. *)
Lemma sort_values_determined `{SortValues} (c : Column) (asc : bool) (view : DataFrame) :
  NoTies c view → sort_values c asc view = insertion_sort c asc view.
Proof.
  intros Hno. apply (sorted_rows_unique c asc).
  - eapply NoTies_perm; [|exact Hno]. symmetry. apply insertion_sort_perm.
  - apply sort_values_sorted.
  - apply insertion_sort_sorted.
  - by rewrite sort_values_perm, insertion_sort_perm.
Qed.

Lemma NoDup_fmap_eq {A B} (f : A → B) (l : list A) (x y : A) :
  NoDup (f <$> l) → x ∈ l → y ∈ l → f x = f y → x = y.
Proof.
  induction l as [|a l IH]; intros Hnd Hx Hy Hf; [by apply not_elem_of_nil in Hx|].
  rewrite fmap_cons in Hnd. apply NoDup_cons in Hnd as [Hnin Hnd].
  apply elem_of_cons in Hx as [->|Hx]; apply elem_of_cons in Hy as [->|Hy]; try done.
  - exfalso. apply Hnin. rewrite Hf. by apply list_elem_of_fmap_2.
  - exfalso. apply Hnin. rewrite <-Hf. by apply list_elem_of_fmap_2.
  - by apply IH.
Qed.

(** X9. The bar chart shows only rows of the selected year, each at most
    as often as the table holds it; it shows min(N, rows of the year)
    rows; and raising N only appends rows to those already shown. *)
Theorem df_year_sorted_rows `{SortValues} (df : DataFrame) (year_selected : Z)
    (top_n : nat) :
  (∀ r, r ∈ df_year_sorted df year_selected top_n → r ∈ df ∧ Year r = year_selected) ∧
  df_year_sorted df year_selected top_n ⊆+ df ∧
  length (df_year_sorted df year_selected top_n)
    = Nat.min top_n (year_count df year_selected) ∧
  (∀ m, (top_n ≤ m)%nat →
     df_year_sorted df year_selected top_n
       `prefix_of` df_year_sorted df year_selected m).
Proof.
  assert (df_year_sorted df year_selected top_n ⊆+ df_year df year_selected) as Hsub
    by apply top_n_by_submseteq.
  split; [|split; [|split]].
  - intros r Hr. eapply elem_of_submseteq in Hr; [|exact Hsub].
    apply list_elem_of_filter in Hr. tauto.
  - etrans; [exact Hsub|]. apply sublist_submseteq, sublist_filter.
  - unfold df_year_sorted. by rewrite top_n_by_length, length_df_year.
  - intros m Hm. unfold df_year_sorted, top_n_by, head.
    rewrite <-(Nat.min_l top_n m Hm), <-take_take. apply prefix_take.
Qed.

(** X10. When no two different rows of the selected year have the same
    Percent Affordable, the bar chart does not depend on the kind of sort:
    it is the first N rows of the insertion sort, and it is stable. *)
Theorem df_year_sorted_determined `{SortValues} (df : DataFrame)
    (year_selected : Z) (top_n : nat)
    (Hno : NoTies col_Percent_Affordable (df_year df year_selected)) :
  df_year_sorted df year_selected top_n
    = take top_n (insertion_sort col_Percent_Affordable false (df_year df year_selected)) ∧
  Stable col_Percent_Affordable (df_year df year_selected)
    (df_year_sorted df year_selected top_n).
Proof.
  assert (df_year_sorted df year_selected top_n
          = take top_n (insertion_sort col_Percent_Affordable false
                          (df_year df year_selected))) as Heq.
  { unfold df_year_sorted, top_n_by, head. by rewrite sort_values_determined. }
  split; [done|]. rewrite Heq.
  apply (top_n_by_insertion_stable col_Percent_Affordable top_n (df_year df year_selected)).
Qed.

(** X10 at the towns of 2014, under the reversed insertion sort. *)
Lemma df_year_sorted_determined_witness :
  NoTies col_Percent_Affordable (df_year distinct_towns 2014) ∧
  @df_year_sorted by_insertion_reversed distinct_towns 2014 5
  = take 5 (insertion_sort col_Percent_Affordable false (df_year distinct_towns 2014)).
Proof.
  assert (NoTies col_Percent_Affordable (df_year distinct_towns 2014)) as Hno.
  { intros r1 r2 H1 H2. vm_compute in H1, H2.
    repeat (apply elem_of_cons in H1 as [->|H1]); [| | |by apply not_elem_of_nil in H1];
    repeat (apply elem_of_cons in H2 as [->|H2]);
      try (by apply not_elem_of_nil in H2); try done; by vm_compute. }
  split; [exact Hno|].
  exact (proj1 (@df_year_sorted_determined by_insertion_reversed distinct_towns 2014 5 Hno)).
Defined.

(** X11. The time series has as many points as the table has rows of the
    town, and none for a town that is not among the town choices. *)
Theorem df_town_points `{SortValues} (df : DataFrame) (town_selected : string) :
  length (df_town df town_selected)
    = length (filter (λ r, Town r = town_selected) df) ∧
  (town_selected ∉ towns df → df_town df town_selected = []).
Proof.
  split.
  - unfold df_town. by rewrite sort_values_perm.
  - intros Hnot. apply Permutation_nil_r. unfold df_town. rewrite sort_values_perm.
    apply Permutation_nil_r. symmetry.
    destruct (filter _ df) as [|r l] eqn:E; [done|]. exfalso. apply Hnot.
    assert (r ∈ filter (λ r, Town r = town_selected) df) as Hin by (rewrite E; left).
    apply list_elem_of_filter in Hin as [Ht Hin].
    unfold towns. rewrite merge_sort_Permutation, elem_of_remove_dups, list_elem_of_fmap.
    eauto.
Qed.

(** X12. When the rows of the town have pairwise different years, the
    years of the time series increase strictly from point to point, and
    the series does not depend on the kind of sort: it is what the
    insertion sort returns. *)
Theorem df_town_unique_years `{SortValues} (df : DataFrame) (town_selected : string)
    (Hunique : NoDup (Year <$> filter (λ r, Town r = town_selected) df)) :
  StronglySorted Z.lt (Year <$> df_town df town_selected) ∧
  df_town df town_selected
    = insertion_sort col_Year true (filter (λ r, Town r = town_selected) df).
Proof.
  split.
  - apply (StronglySorted_strict Z.le); [intros ????; lia| |].
    + unfold df_town.
      eapply StronglySorted_fmap; [|apply (sort_values_sorted col_Year true)].
      intros r1 r2. unfold row_order. simpl. by rewrite <-Zle_Qle.
    + unfold df_town. by rewrite sort_values_perm.
  - unfold df_town. apply sort_values_determined.
    intros r1 r2 H1 H2 Htie. apply (NoDup_fmap_eq Year _ r1 r2 Hunique H1 H2).
    unfold tie in Htie. cbn [cell] in Htie. by apply inject_Z_injective.
Qed.

(** X12 at the shuffled rows of Andover. *)
Lemma df_town_unique_years_witness :
  NoDup (Year <$> filter (λ r, Town r = "Andover") shuffled_years) ∧
  Year <$> @df_town by_insertion_reversed shuffled_years "Andover" = [2011; 2012; 2013] ∧
  StronglySorted Z.lt (Year <$> @df_town by_insertion_reversed shuffled_years "Andover").
Proof.
  assert (NoDup (Year <$> filter (λ r, Town r = "Andover") shuffled_years)) as Hu.
  { apply (bool_decide_unpack _). by vm_compute. }
  split; [exact Hu|]. split; [by vm_compute|].
  exact (proj1 (@df_town_unique_years by_insertion_reversed shuffled_years "Andover" Hu)).
Defined.

(** ** Regression: vectors and fit *)

Local Open Scope Q_scope.

Lemma values_present (c : Column) (view : DataFrame) :
  Forall (λ r, is_Some (cell c r)) view → Some <$> values c view = cell c <$> view.
Proof.
  unfold values. induction 1 as [|r view [v Hv] _ IH]; [done|].
  cbn. rewrite Hv. cbn. by rewrite <-IH.
Qed.

Lemma df_reg_present (df : DataFrame) (reg_year : Z) (c : Column) :
  c = col_Total_Assisted_Units ∨ c = col_Percent_Affordable →
  Forall (λ r, is_Some (cell c r)) (df_reg df reg_year).
Proof.
  intros Hc. apply Forall_forall. intros r Hr. apply elem_of_df_reg in Hr.
  destruct Hc as [-> | ->]; simpl; tauto.
Qed.

Lemma regression_Fitted_inv (df : DataFrame) (reg_year : Z) (b a : Q) (r : option Q) :
  regression df reg_year = Fitted b a r →
  (2 ≤ length (df_reg df reg_year))%nat ∧
  polyfit (values col_Total_Assisted_Units (df_reg df reg_year))
          (values col_Percent_Affordable (df_reg df reg_year)) = Some (b, a) ∧
  r = r2 a b (values col_Total_Assisted_Units (df_reg df reg_year))
             (values col_Percent_Affordable (df_reg df reg_year)).
Proof.
  intros Hfit. destruct (decide (length (df_reg df reg_year) < 2)%nat) as [Hlt|Hge].
  - unfold regression in Hfit. cbv zeta in Hfit. by rewrite decide_True in Hfit.
  - rewrite regression_fitted in Hfit by lia.
    destruct (polyfit _ _) as [[b' a']|]; [|done]. injection Hfit as -> -> <-.
    split; [lia|done].
Qed.

(** X13. The two vectors handed to the fit have one entry per usable row:
    they are as long as the usable rows are many, and their entries at a
    position are the Total Assisted Units and the Percent Affordable of
    the usable row at that position. The usable rows are rows of the
    year, in table order; dropping missing values a second time changes
    nothing, and the section run on the usable rows alone shows what it
    shows on the table. *)
Theorem df_reg_vectors (df : DataFrame) (reg_year : Z) :
  length (values col_Total_Assisted_Units (df_reg df reg_year))
    = length (df_reg df reg_year) ∧
  length (values col_Percent_Affordable (df_reg df reg_year))
    = length (df_reg df reg_year) ∧
  (∀ i r, df_reg df reg_year !! i = Some r →
     values col_Total_Assisted_Units (df_reg df reg_year) !! i
       = Total_Assisted_Units r ∧
     values col_Percent_Affordable (df_reg df reg_year) !! i
       = Percent_Affordable r) ∧
  df_reg df reg_year `sublist_of` df_year df reg_year ∧
  dropna [col_Total_Assisted_Units; col_Percent_Affordable] (df_reg df reg_year)
    = df_reg df reg_year ∧
  df_reg (df_reg df reg_year) reg_year = df_reg df reg_year ∧
  regression (df_reg df reg_year) reg_year = regression df reg_year.
Proof.
  assert (df_reg (df_reg df reg_year) reg_year = df_reg df reg_year) as Hidem.
  { rewrite (df_reg_filter (df_reg df reg_year)). apply filter_all.
    intros r Hr. apply elem_of_df_reg in Hr. tauto. }
  split; [apply length_x_df_reg|]. split; [apply length_y_df_reg|].
  split; [|split; [apply sublist_filter|split; [|split; [done|]]]].
  - intros i r Hi.
    pose proof (values_present col_Total_Assisted_Units _
                  (df_reg_present df reg_year _ (or_introl eq_refl))) as Hx.
    pose proof (values_present col_Percent_Affordable _
                  (df_reg_present df reg_year _ (or_intror eq_refl))) as Hy.
    apply (f_equal (λ l, l !! i)) in Hx, Hy.
    rewrite !list_lookup_fmap, Hi in Hx, Hy. simpl in Hx, Hy.
    destruct (values col_Total_Assisted_Units _ !! i),
             (values col_Percent_Affordable _ !! i); simplify_eq/=. by split.
  - unfold dropna. apply filter_all. intros r Hr. apply elem_of_df_reg in Hr.
    rewrite !Forall_cons, Forall_nil. simpl. tauto.
  - unfold regression. cbv zeta. by rewrite Hidem.
Qed.

Lemma ss_res_flat (m : Q) (x y : list Q) :
  length x = length y →
  ss_res m 0 x y == np_sum ((λ yi, (yi - m) ^ 2) <$> y).
Proof.
  unfold ss_res, y_pred. revert y.
  induction x as [|x0 x IH]; intros [|y0 y] Hlen; try done.
  injection Hlen as Hlen. cbn [fmap list_fmap zip_with np_sum foldr].
  repeat match goal with
         | |- context [foldr Qplus 0 ?l] => change (foldr Qplus 0 l) with (np_sum l)
         end.
  change (list_fmap Q Q (λ xi, m + 0 * xi) x) with ((λ xi, m + 0 * xi) <$> x).
  change (list_fmap Q Q (λ yi, (yi - m) ^ 2) y) with ((λ yi, (yi - m) ^ 2) <$> y).
  rewrite (IH y Hlen). simpl Qpower. ring.
Qed.

Lemma ss_res_zero_iff (a b : Q) (x y : list Q) :
  length x = length y →
  ss_res a b x y == 0 ↔ Forall2 (λ xi yi, yi == a + b * xi) x y.
Proof.
  unfold ss_res, y_pred. revert y.
  induction x as [|x0 x IH]; intros [|y0 y] Hlen; try done.
  injection Hlen as Hlen. cbn [fmap list_fmap zip_with np_sum foldr].
  change (foldr Qplus 0 ?l) with (np_sum l).
  change (list_fmap Q Q (λ xi, a + b * xi) x) with ((λ xi, a + b * xi) <$> x).
  pose proof (sqr_nonneg (y0 - (a + b * x0))) as H0.
  pose proof (ss_res_nonneg a b x y) as Hrest. unfold ss_res, y_pred in Hrest.
  rewrite Forall2_cons, <-(IH y Hlen).
  pose proof (sqr_zero (y0 - (a + b * x0))) as Hsq.
  set (s0 := (y0 - (a + b * x0)) ^ 2) in *.
  set (s := np_sum _) in *. split.
  - intros Hsum. split; [|lra].
    assert (s0 == 0) as Hz by lra. apply Hsq in Hz. lra.
  - intros [Hy0 Hz]. assert (s0 == 0) as Hz0 by (apply Hsq; lra). lra.
Qed.

(** X14. In exact arithmetic, with [np.polyfit] the least-squares
    solution numpy documents: when the section shows a fit, also one on x
    values that are all the same, its coefficients minimise the sum of
    squared residuals over all lines, the residuals of the fitted line
    sum to zero, and the line passes through the point of the two means. *)
Theorem regression_least_squares (df : DataFrame) (reg_year : Z) (b a : Q)
    (r : option Q) (Hfit : regression df reg_year = Fitted b a r) :
  (∀ a' b',
     ss_res a b (values col_Total_Assisted_Units (df_reg df reg_year))
                (values col_Percent_Affordable (df_reg df reg_year))
     <= ss_res a' b' (values col_Total_Assisted_Units (df_reg df reg_year))
                     (values col_Percent_Affordable (df_reg df reg_year))) ∧
  np_sum (values col_Percent_Affordable (df_reg df reg_year))
    == np_sum (y_pred a b (values col_Total_Assisted_Units (df_reg df reg_year))) ∧
  a + b * np_mean (values col_Total_Assisted_Units (df_reg df reg_year))
    == np_mean (values col_Percent_Affordable (df_reg df reg_year)).
Proof.
  apply regression_Fitted_inv in Hfit as (Hn & Hpoly & _).
  set (x := values col_Total_Assisted_Units (df_reg df reg_year)) in *.
  set (y := values col_Percent_Affordable (df_reg df reg_year)) in *.
  assert (length x = length y) as Hlen
    by (subst x y; by rewrite length_x_df_reg, length_y_df_reg).
  assert (0 < inject_Z (Z.of_nat (length x))) as Hpos.
  { apply length_pos_Q. intros Hnil. subst x. rewrite <-length_x_df_reg, Hnil in Hn.
    simpl in Hn. lia. }
  destruct (polyfit_normal x y a b Hlen Hpoly) as [Hnormal _].
  split; [by apply polyfit_least_squares|]. split.
  - rewrite <-Hnormal. unfold y_pred. clear. induction x as [|x0 x IH].
    + cbn. ring.
    + rewrite n_succ. cbn [fmap list_fmap np_sum foldr].
      change (foldr Qplus 0 ?l) with (np_sum l).
      change (list_fmap Q Q (λ xi, a + b * xi) x) with ((λ xi, a + b * xi) <$> x).
      rewrite <-IH. ring.
  - unfold np_mean. rewrite <-Hlen, <-Hnormal. field. lra.
Qed.

(** X14 at the linear set. *)
Lemma regression_least_squares_witness :
  ∃ b a r, regression linear_set 2011 = Fitted b a r ∧
           a + b * np_mean (values col_Total_Assisted_Units (df_reg linear_set 2011))
           == np_mean (values col_Percent_Affordable (df_reg linear_set 2011)).
Proof.
  eexists _, _, _.
  assert (regression linear_set 2011 = Fitted (12 # 6) (0 # 18) (Some (9254651051409408 # 9254651051409408))) as Hfit by (by vm_compute).
  split; [exact Hfit|].
  exact (proj2 (proj2 (regression_least_squares linear_set 2011 _ _ _ Hfit))).
Defined.

(** X15. In exact arithmetic: when the section shows a fit and the y
    values are not all the same, R² is a number between 0 and 1, and it
    is 1 exactly when every usable point lies on the fitted line. *)
Theorem r2_fitted_range (df : DataFrame) (reg_year : Z) (b a : Q) (r : option Q)
    (Hfit : regression df reg_year = Fitted b a r)
    (Hvaries : varies (values col_Percent_Affordable (df_reg df reg_year))) :
  ∃ q, r = Some q ∧ 0 <= q ∧ q <= 1 ∧
       (q == 1 ↔
        Forall2 (λ xi yi, yi == a + b * xi)
          (values col_Total_Assisted_Units (df_reg df reg_year))
          (values col_Percent_Affordable (df_reg df reg_year))).
Proof.
  apply regression_Fitted_inv in Hfit as (Hn & Hpoly & ->).
  set (x := values col_Total_Assisted_Units (df_reg df reg_year)) in *.
  set (y := values col_Percent_Affordable (df_reg df reg_year)) in *.
  assert (length x = length y) as Hlen
    by (subst x y; by rewrite length_x_df_reg, length_y_df_reg).
  apply varies_ss_tot in Hvaries as Htot.
  exists (1 - ss_res a b x y / ss_tot y). split.
  { unfold r2. by rewrite decide_True. }
  pose proof (ss_tot_nonneg y) as Ht. pose proof (ss_res_nonneg a b x y) as Hr.
  assert (ss_res a b x y <= ss_tot y) as Hle.
  { rewrite <-(ss_res_flat (np_mean y) x y Hlen : _ == ss_tot y).
    by apply polyfit_least_squares. }
  rewrite <-(ss_res_zero_iff a b x y Hlen).
  set (s := ss_res a b x y) in *. set (t := ss_tot y) in *.
  assert (0 <= s / t) as Hd0 by (apply Qle_shift_div_l; lra).
  assert (s / t <= 1) as Hd1 by (apply Qle_shift_div_r; lra).
  assert (s == s / t * t) as Hst by (field; done).
  split; [lra|]. split; [lra|]. split.
  - intros H1. assert (s / t == 0) as Hz by lra. rewrite Hst, Hz. ring.
  - intros Hz. rewrite Hz. field. done.
Qed.

(** X15 at the linear set. *)
Lemma r2_fitted_range_witness :
  varies (values col_Percent_Affordable (df_reg linear_set 2011)) ∧
  ∃ b a q, regression linear_set 2011 = Fitted b a (Some q) ∧ 0 <= q ∧ q <= 1.
Proof.
  assert (varies (values col_Percent_Affordable (df_reg linear_set 2011))) as Hv.
  { exists 2, 4. split; [by left|]. split; [right; by left|]. by vm_compute. }
  split; [exact Hv|]. eexists _, _, _.
  assert (regression linear_set 2011
          = Fitted (12 # 6) (0 # 18) (Some (9254651051409408 # 9254651051409408)))
    as Hfit by (by vm_compute).
  split; [exact Hfit|].
  destruct (r2_fitted_range linear_set 2011 _ _ _ Hfit Hv) as (q & Hq & H0 & H1 & _).
  injection Hq as <-. by split.
Defined.

(** ** Regression: the plotted line *)

Lemma linspace_length (start stop : Q) (num : nat) :
  length (linspace start stop num) = num.
Proof. unfold linspace. cbv zeta. by rewrite length_fmap, length_seq. Qed.

Lemma linspace_lookup (start stop : Q) (num i : nat) :
  (i < num)%nat →
  linspace start stop num !! i
  = Some (start + inject_Z (Z.of_nat i)
                  * ((stop - start) / inject_Z (Z.of_nat (num - 1)))).
Proof.
  intros Hi. unfold linspace. cbv zeta.
  by rewrite list_lookup_fmap, lookup_seq_lt.
Qed.

Lemma linspace_elem (start stop : Q) (num : nat) (v : Q) :
  v ∈ linspace start stop num → ∃ i, (i < num)%nat ∧ linspace start stop num !! i = Some v.
Proof.
  intros (i & Hi)%list_elem_of_lookup_1. exists i. split; [|done].
  apply lookup_lt_Some in Hi. by rewrite linspace_length in Hi.
Qed.

(** X16. For a non-empty x the plotted line has 100 points; its x values
    start at the smallest x, end at the largest x, advance by the same
    step, and all lie in the range of the data; each point lies on the
    line [a + b x]. *)
Theorem df_line_spec (a b : Q) (x : list Q) (Hx : x ≠ []) :
  ∃ lo hi xl pts,
    series_min x = Some lo ∧ series_max x = Some hi ∧
    x_line x = Some xl ∧ df_line a b x = Some pts ∧
    length xl = 100%nat ∧ length pts = 100%nat ∧
    (∃ x0 x99, xl !! 0%nat = Some x0 ∧ xl !! 99%nat = Some x99 ∧ x0 == lo ∧ x99 == hi) ∧
    (∀ i u u', xl !! i = Some u → xl !! S i = Some u' → u' - u == (hi - lo) / 99) ∧
    (∀ u, u ∈ xl → lo <= u ∧ u <= hi) ∧
    (∀ v, v ∈ x → lo <= v ∧ v <= hi) ∧
    (∀ i u w, pts !! i = Some (u, w) → xl !! i = Some u ∧ w = a + b * u).
Proof.
  destruct x as [|v0 x']; [done|]. set (x := v0 :: x') in *.
  assert (v0 ∈ x) as Hv0 by left.
  destruct (series_min_spec _ _ Hv0) as (lo & Hlo & Hle0).
  destruct (series_max_spec _ _ Hv0) as (hi & Hhi & Hge0).
  assert (lo <= hi) as Hlohi by (by eapply Qle_trans).
  exists lo, hi, (linspace lo hi 100), (zip (linspace lo hi 100) (y_line a b (linspace lo hi 100))).
  assert (∀ i, (i < 100)%nat →
            linspace lo hi 100 !! i = Some (lo + inject_Z (Z.of_nat i) * ((hi - lo) / 99)))
    as Hlook by (intros i Hi; by rewrite linspace_lookup).
  split; [done|]. split; [done|].
  split; [unfold x_line; by rewrite Hlo, Hhi|].
  split; [unfold df_line, x_line; by rewrite Hlo, Hhi|].
  split; [apply linspace_length|].
  split; [unfold y_line; by rewrite length_zip, length_fmap, linspace_length|].
  split; [|split; [|split; [|split]]].
  - eexists _, _. split; [by apply Hlook; lia|]. split; [by apply Hlook; lia|].
    split; [simpl; ring|]. simpl. field.
  - intros i u u' Hu Hu'.
    assert (S i < 100)%nat as Hi by (apply lookup_lt_Some in Hu'; by rewrite linspace_length in Hu').
    rewrite Hlook in Hu, Hu' by lia. injection Hu as <-. injection Hu' as <-.
    rewrite Nat2Z.inj_succ. unfold Z.succ. rewrite inject_Z_plus. ring.
  - intros u (i & Hi & Hu)%linspace_elem. rewrite Hlook in Hu by done. injection Hu as <-.
    assert (0 <= inject_Z (Z.of_nat i)) as Hi0.
    { change 0 with (inject_Z 0). rewrite <-Zle_Qle. lia. }
    assert (inject_Z (Z.of_nat i) <= 99) as Hi99.
    { change 99 with (inject_Z 99). rewrite <-Zle_Qle. lia. }
    set (t := inject_Z (Z.of_nat i)) in *.
    assert (t * ((hi - lo) / 99) == t * (hi - lo) / 99) as -> by field.
    assert (0 <= t * (hi - lo) / 99) as H1 by (apply Qle_shift_div_l; nra).
    assert (t * (hi - lo) / 99 <= hi - lo) as H2 by (apply Qle_shift_div_r; nra).
    lra.
  - intros v Hv.
    destruct (series_min_spec _ _ Hv) as (lo' & Hlo' & Hle).
    destruct (series_max_spec _ _ Hv) as (hi' & Hhi' & Hge).
    rewrite Hlo in Hlo'. rewrite Hhi in Hhi'. by simplify_eq.
  - intros i u w Hpt. unfold y_line in Hpt.
    apply lookup_zip_with_Some in Hpt as (u' & w' & Heq & Hu & Hw).
    injection Heq as -> ->. split; [done|].
    rewrite list_lookup_fmap, Hu in Hw. by injection Hw as <-.
Qed.

(** X16 at the x values 1, 2, 3. *)
Lemma df_line_spec_witness :
  [1; 2; 3] ≠ [] ∧
  ∃ xl, x_line [1; 2; 3] = Some xl ∧ length xl = 100%nat ∧ ∀ u, u ∈ xl → 1 <= u ∧ u <= 3.
Proof.
  assert ([1; 2; 3] ≠ @nil Q) as Hne by done.
  split; [exact Hne|].
  destruct (df_line_spec 2 0 [1; 2; 3] Hne)
    as (lo & hi & xl & pts & Hlo & Hhi & Hxl & _ & Hlen & _ & _ & _ & Hin & _).
  exists xl. split; [done|]. split; [done|].
  injection Hlo as <-. injection Hhi as <-. intros u Hu.
  destruct (Hin u Hu) as [H1 H2]. split.
  - eapply Qle_trans; [|exact H1]. by vm_compute.
  - eapply Qle_trans; [exact H2|]. by vm_compute.
Defined.

Local Close Scope Q_scope.

(** ** The views partition the table *)

Lemma partition_by_key {A K : Type} `{EqDecision K} (f : A → K) (ks : list K)
    (l : list A) :
  NoDup ks → (∀ x, x ∈ l → f x ∈ ks) →
  l ≡ₚ mjoin ((λ k, filter (λ x, f x = k) l) <$> ks).
Proof.
  intros Hnd. revert l. induction Hnd as [|k ks Hnin Hnd IH]; intros l Hcover.
  - destruct l as [|x l]; [done|]. exfalso.
    by apply (not_elem_of_nil (f x)), Hcover; left.
  - rewrite fmap_cons. simpl.
    rewrite <-(filter_app_complement (λ x, f x = k) l) at 1.
    apply Permutation_app; [done|].
    assert ((λ k', filter (λ x, f x = k') (filter (λ x, ¬ f x = k) l)) <$> ks
            = (λ k', filter (λ x, f x = k') l) <$> ks) as <-.
    { apply list_fmap_ext. intros i k' Hk'.
      rewrite list_filter_filter. apply list_filter_iff. intros x. split; [tauto|].
      intros Hx. split; [done|]. intros Hk. apply Hnin. rewrite <-Hk, Hx.
      by eapply list_elem_of_lookup_2. }
    apply IH. intros x [Hx Hin]%list_elem_of_filter.
    pose proof (Hcover x Hin) as Hks.
    apply elem_of_cons in Hks as [Hks|Hks]; [done|exact Hks].
Qed.

(** X17. The year views for the year choices partition the table: every
    row is in the view of exactly one year choice, so the table is a
    rearrangement of the year views taken together and its size is the
    sum of the per-year counts. The town series for the town choices
    partition it likewise. *)
Theorem views_partition `{SortValues} (df : DataFrame) :
  df ≡ₚ mjoin (df_year df <$> years df) ∧
  length df = sum_list_with (year_count df) (years df) ∧
  df ≡ₚ mjoin (df_town df <$> towns df).
Proof.
  assert (df ≡ₚ mjoin (df_year df <$> years df)) as Hyears.
  { unfold df_year. apply partition_by_key.
    - unfold years. rewrite merge_sort_Permutation. apply NoDup_remove_dups.
    - intros r Hr. apply elem_of_years. eauto. }
  split; [done|]. split.
  - rewrite Hyears at 1. clear Hyears.
    induction (years df) as [|y ys IH]; [done|].
    rewrite fmap_cons. simpl. by rewrite length_app, length_df_year, IH.
  - etrans.
    + apply (partition_by_key Town (towns df)).
      * unfold towns. rewrite merge_sort_Permutation. apply NoDup_remove_dups.
      * intros r Hr. unfold towns.
        rewrite merge_sort_Permutation, elem_of_remove_dups, list_elem_of_fmap. eauto.
    + induction (towns df) as [|t ts IH]; [done|].
      rewrite !fmap_cons. simpl. apply Permutation_app; [|exact IH].
      unfold df_town. by rewrite sort_values_perm.
Qed.

(** ** Regression: the order of the rows *)

Local Open Scope Q_scope.

Lemma np_sum_perm (v v' : list Q) : v ≡ₚ v' → np_sum v == np_sum v'.
Proof.
  induction 1 as [|q v v' _ IH|q1 q2 v|v1 v2 v3 _ IH1 _ IH2]; simpl.
  - reflexivity.
  - by rewrite IH.
  - ring.
  - by rewrite IH1.
Qed.

(** On rows whose two cells are present, combining the two vectors entry
    by entry is combining the two cells row by row. *)
Lemma zip_with_values {B} (f : Q → Q → B) (c1 c2 : Column) (l : DataFrame) :
  Forall (λ r, is_Some (cell c1 r)) l → Forall (λ r, is_Some (cell c2 r)) l →
  zip_with f (values c1 l) (values c2 l)
  = omap (λ r, v1 ← cell c1 r; v2 ← cell c2 r; Some (f v1 v2)) l.
Proof.
  unfold values. induction 1 as [|r l [v1 Hv1] _ IH]; intros H2; [done|].
  apply Forall_cons in H2 as [[v2 Hv2] H2].
  cbn. rewrite Hv1, Hv2. cbn. by rewrite <-(IH H2).
Qed.

Lemma zip_with_values_perm {B} (f : Q → Q → B) (c1 c2 : Column) (l l' : DataFrame) :
  Forall (λ r, is_Some (cell c1 r)) l → Forall (λ r, is_Some (cell c2 r)) l →
  l ≡ₚ l' →
  zip_with f (values c1 l) (values c2 l) ≡ₚ zip_with f (values c1 l') (values c2 l').
Proof.
  intros H1 H2 E. rewrite !zip_with_values; try done.
  - by rewrite E.
  - by rewrite <-E.
  - by rewrite <-E.
Qed.

Lemma ss_res_compat (a b a' b' : Q) (x y : list Q) :
  a == a' → b == b' → ss_res a b x y == ss_res a' b' x y.
Proof.
  intros Ha Hb. unfold ss_res, y_pred. revert y.
  induction x as [|x0 x IH]; intros [|y0 y]; try reflexivity.
  cbn [fmap list_fmap zip_with np_sum foldr].
  change (foldr Qplus 0 ?l) with (np_sum l).
  change (list_fmap Q Q (λ xi, a + b * xi) x) with ((λ xi, a + b * xi) <$> x).
  change (list_fmap Q Q (λ xi, a' + b' * xi) x) with ((λ xi, a' + b' * xi) <$> x).
  by rewrite (IH y), Ha, Hb.
Qed.

Lemma sum_sq_dev_compat (m m' : Q) (y : list Q) :
  m == m' →
  np_sum ((λ yi, (yi - m) ^ 2) <$> y) == np_sum ((λ yi, (yi - m') ^ 2) <$> y).
Proof. intros Hm. by rewrite !sum_sq_dev, Hm. Qed.

Lemma ss_res_zip (a b : Q) (x y : list Q) :
  ss_res a b x y = np_sum (zip_with (λ xi yi, (yi - (a + b * xi)) ^ 2) x y).
Proof.
  unfold ss_res, y_pred. f_equal. revert y.
  induction x as [|x0 x IH]; intros [|y0 y]; try done. cbn. f_equal. apply IH.
Qed.

(** The fit depends on its two vectors through their length and four
    sums only. *)
Lemma polyfit_compat (x y x' y' : list Q) :
  length x = length x' → length y = length y' →
  np_sum x == np_sum x' → np_sum y == np_sum y' →
  np_sum (zip_with Qmult x x) == np_sum (zip_with Qmult x' x') →
  np_sum (zip_with Qmult x y) == np_sum (zip_with Qmult x' y') →
  option_Forall2 (λ p q, p.1 == q.1 ∧ p.2 == q.2) (polyfit x y) (polyfit x' y').
Proof.
  intros Hlx Hly Hsx Hsy Hsxx Hsxy.
  assert (np_mean x == np_mean x') as Hmx by (unfold np_mean; by rewrite Hsx, Hlx).
  assert (np_mean y == np_mean y') as Hmy by (unfold np_mean; by rewrite Hsy, Hly).
  unfold polyfit. cbv zeta. rewrite <-Hlx.
  destruct (decide (inject_Z (Z.of_nat (length x)) * np_sum (zip_with Qmult x x)
                    - np_sum x * np_sum x == 0)) as [Hd|Hd];
  destruct (decide (inject_Z (Z.of_nat (length x)) * np_sum (zip_with Qmult x' x')
                    - np_sum x' * np_sum x' == 0)) as [Hd'|Hd'].
  - destruct (decide (np_mean x == 0)) as [Hc|Hc],
             (decide (np_mean x' == 0)) as [Hc'|Hc'].
    + constructor.
    + exfalso. apply Hc'. by rewrite <-Hmx.
    + exfalso. apply Hc. by rewrite Hmx.
    + constructor. simpl. split; [by rewrite Hmy, Hmx|by rewrite Hmy].
  - exfalso. apply Hd'. by rewrite <-Hsxx, <-Hsx.
  - exfalso. apply Hd. by rewrite Hsxx, Hsx.
  - assert (inject_Z (Z.of_nat (length x)) * np_sum (zip_with Qmult x x)
            - np_sum x * np_sum x ==
            inject_Z (Z.of_nat (length x)) * np_sum (zip_with Qmult x' x')
            - np_sum x' * np_sum x') as Hdet by (by rewrite Hsxx, Hsx).
    set (det := inject_Z (Z.of_nat (length x)) * np_sum (zip_with Qmult x x)
                - np_sum x * np_sum x) in *.
    set (det' := inject_Z (Z.of_nat (length x)) * np_sum (zip_with Qmult x' x')
                 - np_sum x' * np_sum x') in *.
    set (b := (inject_Z (Z.of_nat (length x)) * np_sum (zip_with Qmult x y)
               - np_sum x * np_sum y) / det).
    set (b' := (inject_Z (Z.of_nat (length x)) * np_sum (zip_with Qmult x' y')
                - np_sum x' * np_sum y') / det').
    assert (b == b') as Hb by (subst b b'; by rewrite Hsxy, Hsx, Hsy, Hdet).
    constructor. simpl. split; [done|]. by rewrite Hsy, Hb, Hsx.
Qed.

(** X18. In exact arithmetic the regression section does not depend on
    the order of the rows of the table: on a rearranged table it shows
    the same warning, or coefficients and an R² equal as numbers, or
    [np.polyfit] raises on both. *)
Theorem regression_row_order (df df' : DataFrame) (reg_year : Z)
    (Hperm : df ≡ₚ df') :
  same_outcome (regression df reg_year) (regression df' reg_year).
Proof.
  assert (df_reg df reg_year ≡ₚ df_reg df' reg_year) as E.
  { unfold df_reg, dropna, df_year. by rewrite Hperm. }
  pose proof (Permutation_length E) as Hlen.
  unfold regression. cbv zeta. rewrite <-Hlen.
  case_decide as Hn; [done|].
  pose proof (df_reg_present df reg_year col_Total_Assisted_Units (or_introl eq_refl)) as Px.
  pose proof (df_reg_present df reg_year col_Percent_Affordable (or_intror eq_refl)) as Py.
  set (l := df_reg df reg_year) in *. set (l' := df_reg df' reg_year) in *.
  set (x := values col_Total_Assisted_Units l). set (y := values col_Percent_Affordable l).
  set (x' := values col_Total_Assisted_Units l').
  set (y' := values col_Percent_Affordable l').
  assert (x ≡ₚ x') as Ex by (subst x x'; unfold values; by rewrite E).
  assert (y ≡ₚ y') as Ey by (subst y y'; unfold values; by rewrite E).
  assert (np_sum x == np_sum x') as Hsx by (by apply np_sum_perm).
  assert (np_sum y == np_sum y') as Hsy by (by apply np_sum_perm).
  assert (np_sum (zip_with Qmult x x) == np_sum (zip_with Qmult x' x')) as Hsxx
    by (by apply np_sum_perm, zip_with_values_perm).
  assert (np_sum (zip_with Qmult x y) == np_sum (zip_with Qmult x' y')) as Hsxy
    by (by apply np_sum_perm, zip_with_values_perm).
  assert (length x = length x') as Hlx by (by apply Permutation_length).
  assert (length y = length y') as Hly by (by apply Permutation_length).
  assert (ss_tot y == ss_tot y') as Htot.
  { unfold ss_tot. rewrite (sum_sq_dev_compat (np_mean y) (np_mean y')).
    - by apply np_sum_perm, fmap_Permutation.
    - unfold np_mean. by rewrite Hsy, Hly. }
  destruct (polyfit_compat x y x' y' Hlx Hly Hsx Hsy Hsxx Hsxy)
    as [[b a] [b' a'] [Hb Ha]|]; simpl in *; [|done].
  split; [done|]. split; [done|].
  assert (ss_res a b x y == ss_res a' b' x' y') as Hres.
  { rewrite (ss_res_compat a b a' b') by done. rewrite !ss_res_zip.
    by apply np_sum_perm, zip_with_values_perm. }
  unfold r2.
  destruct (decide (¬ ss_tot y == 0)) as [Ht|Ht],
           (decide (¬ ss_tot y' == 0)) as [Ht'|Ht']; try by constructor.
  - constructor. by rewrite Hres, Htot.
  - exfalso. apply Ht'. by rewrite <-Htot.
  - exfalso. apply Ht. by rewrite Htot.
Qed.

(** X18 at the linear set and the same rows in reverse. *)
Lemma regression_row_order_witness :
  linear_set ≡ₚ reverse linear_set ∧
  same_outcome (regression linear_set 2011) (regression (reverse linear_set) 2011).
Proof.
  assert (linear_set ≡ₚ reverse linear_set) as Hp by (symmetry; apply reverse_Permutation).
  split; [exact Hp|].
  exact (regression_row_order linear_set (reverse linear_set) 2011 Hp).
Defined.

Local Close Scope Q_scope.
